(** * kuscia gateway HTTP helper: pkg/gateway/utils/http.go

    A shallow embedding of [ParseURL], [DoHTTPWithHandler], [DoHTTP] and
    [DoHTTPWithRetry], together with the parts of the Go standard library
    they call ([strings], [strconv], [fmt]), and the properties of the
    natural-language specification stated over that embedding.

    Conventions.
    - A Go [string] and a Go [[]byte] are both byte sequences; they are
      modelled by [string] (a list of 8-bit [ascii]).
    - A Go [int] is a 64-bit signed integer, modelled by [Z]; [uint32(x)]
      is written out as reduction modulo 2^32.
    - A Go [error] is [option error]: [None] is [nil]. *)

From Stdlib Require Import ZArith List String Ascii Bool Lia DecimalString.
Import ListNotations.

Local Open Scope string_scope.
Local Open Scope Z_scope.

(** ** Go [error] values *)

(** The dynamic types of the errors this file creates or receives:
    [*errors.errorString] (from [fmt.Errorf] without a wrapping verb and from
    [errors.New]) and [*strconv.NumError]. *)
Inductive error : Type :=
| errorString (s : string)
| NumError (Func Num : string) (Err : error).

Definition ErrSyntax : error := errorString "invalid syntax".
Definition ErrRange : error := errorString "value out of range".

Definition syntaxError (fn str : string) : error := NumError fn str ErrSyntax.
Definition rangeError (fn str : string) : error := NumError fn str ErrRange.

(** ** Package [strings] *)

Module strings.

(** [strings.HasPrefix(s, prefix)]. *)
Definition HasPrefix (s prefix : string) : bool := String.prefix prefix s.

(** The slice expression [s[n:]], for [n <= len(s)]. *)
Fixpoint slice_from (n : nat) (s : string) : string :=
  match n, s with
  | O, _ => s
  | S n', String _ s' => slice_from n' s'
  | S _, EmptyString => EmptyString
  end.

(** The slice expression [s[:n]] as the source guards it
    ([if len(s) > n { s = s[:n] }]): at most the first [n] bytes. *)
Fixpoint slice_to (n : nat) (s : string) : string :=
  match n, s with
  | O, _ => EmptyString
  | S n', String c s' => String c (slice_to n' s')
  | S _, EmptyString => EmptyString
  end.

(** [strings.Index] followed by the two slices [s[:m]] and [s[m+1:]] that
    [genSplit] takes around the first occurrence of a one-byte separator. *)
Fixpoint cut (sep : ascii) (s : string) : option (string * string) :=
  match s with
  | EmptyString => None
  | String c s' =>
      if Ascii.eqb c sep then Some (EmptyString, s')
      else match cut sep s' with
           | Some (a, b) => Some (String c a, b)
           | None => None
           end
  end.

(** [strings.Count(s, sep)] for a one-byte separator. *)
Fixpoint Count (sep : ascii) (s : string) : nat :=
  match s with
  | EmptyString => O
  | String c s' => ((if Ascii.eqb c sep then 1 else 0) + Count sep s')%nat
  end.

(** The loop of [strings.genSplit]: at most [cuts] separators are consumed,
    the rest of the string is the last piece. *)
Fixpoint genSplit (cuts : nat) (sep : ascii) (s : string) : list string :=
  match cuts with
  | O => [s]
  | S k =>
      match cut sep s with
      | Some (a, b) => a :: genSplit k sep b
      | None => [s]
      end
  end.

(** [strings.SplitN(s, sep, n)] for [n > 0]: at most [n] pieces. *)
Definition SplitN (s : string) (sep : ascii) (n : nat) : list string :=
  genSplit (n - 1) sep s.

(** [strings.Split(s, sep)]: [Count(s, sep) + 1] pieces. *)
Definition Split (s : string) (sep : ascii) : list string :=
  genSplit (Count sep s) sep s.

End strings.

(** ** Package [strconv] *)

Module strconv.

Definition is_digit (c : ascii) : bool :=
  let n := nat_of_ascii c in (Nat.leb 48 n && Nat.leb n 57)%bool.

Definition digit_val (c : ascii) : Z := Z.of_nat (nat_of_ascii c) - 48.

Definition is_sign (c : ascii) : bool :=
  (Ascii.eqb c "-" || Ascii.eqb c "+")%bool.

(** The digit loop of the fast path of [Atoi]: [None] is the syntax error
    raised at the first byte that is not a decimal digit. *)
Fixpoint atoi_loop (s : string) (n : Z) : option Z :=
  match s with
  | EmptyString => Some n
  | String ch s' =>
      if is_digit ch then atoi_loop s' (n * 10 + digit_val ch) else None
  end.

Definition maxUint64 : Z := 2 ^ 64 - 1.

(** The digit loop of [ParseUint(s, 10, 64)]. *)
Fixpoint parseUint_loop (s0 s : string) (n : Z) : Z * option error :=
  match s with
  | EmptyString => (n, None)
  | String c s' =>
      if is_digit c then
        if n >=? maxUint64 / 10 + 1 then
          (maxUint64, Some (rangeError "ParseUint" s0))
        else
          let n1 := n * 10 + digit_val c in
          if n1 >? maxUint64 then (maxUint64, Some (rangeError "ParseUint" s0))
          else parseUint_loop s0 s' n1
      else (0, Some (syntaxError "ParseUint" s0))
  end.

Definition ParseUint (s : string) : Z * option error :=
  match s with
  | EmptyString => (0, Some (syntaxError "ParseUint" s))
  | _ => parseUint_loop s s 0
  end.

(** [ParseInt(s, 10, 0)] on a 64-bit platform. *)
Definition ParseInt (s : string) : Z * option error :=
  match s with
  | EmptyString => (0, Some (syntaxError "ParseInt" s))
  | String c rest =>
      let s0 := s in
      let neg := Ascii.eqb c "-" in
      let s1 := if is_sign c then rest else s in
      let '(un, err) := ParseUint s1 in
      match err with
      | Some (NumError _ _ (errorString "value out of range")) | None =>
          let cutoff := 2 ^ 63 in
          if (negb neg && (un >=? cutoff))%bool then
            (cutoff - 1, Some (rangeError "ParseInt" s0))
          else if (neg && (un >? cutoff))%bool then
            (- cutoff, Some (rangeError "ParseInt" s0))
          else ((if neg then - un else un), None)
      | Some _ => (0, Some (syntaxError "ParseInt" s0))
      end
  end.

(** [strconv.Atoi(s)] on a 64-bit platform: the fast path for strings of
    fewer than 19 bytes, [ParseInt] otherwise, with the function name of a
    [NumError] replaced by ["Atoi"]. *)
Definition Atoi (s : string) : Z * option error :=
  let sLen := String.length s in
  if (Nat.ltb 0 sLen && Nat.ltb sLen 19)%bool then
    match s with
    | EmptyString => (0, Some (syntaxError "Atoi" s))
    | String c rest =>
        let s1 := if is_sign c then rest else s in
        if (is_sign c && Nat.ltb (String.length s1) 1)%bool then
          (0, Some (syntaxError "Atoi" s))
        else
          match atoi_loop s1 0 with
          | None => (0, Some (syntaxError "Atoi" s))
          | Some n => ((if Ascii.eqb c "-" then - n else n), None)
          end
    end
  else
    let '(i64, err) := ParseInt s in
    match err with
    | Some (NumError _ num e) => (i64, Some (NumError "Atoi" num e))
    | _ => (i64, err)
    end.

End strconv.

(** ** Conversions and formatting *)

(** The conversion [uint32(x)] of a Go [int]. *)
Definition uint32 (x : Z) : Z := x mod 2 ^ 32.

(** The verb [%d] of [fmt] on an integer. *)
Definition fmt_d (x : Z) : string := NilZero.string_of_int (Z.to_int x).

(** ** [ParseURL] *)

(** Lines 51 to 71: what [ParseURL] does once the scheme is stripped. *)
Definition ParseURL_rest (protocol hostPort : string)
  : string * string * Z * string * option error :=
  let parts := strings.SplitN hostPort "/" 2 in
  let hostPort := nth 0 parts "" in
  let path := if Nat.ltb 1 (List.length parts) then "/" ++ nth 1 parts "" else "" in
  let fields := strings.Split hostPort ":" in
  let host := nth 0 fields "" in
  if Nat.eqb (List.length fields) 2 then
    let '(port, err) := strconv.Atoi (nth 1 fields "") in
    match err with
    | Some e => (protocol, host, uint32 port, path, Some e)
    | None => (protocol, host, uint32 port, path, None)
    end
  else
    let port := if String.eqb protocol "http" then 80 else 443 in
    (protocol, host, uint32 port, path, None).

Definition ParseURL (url : string) : string * string * Z * string * option error :=
  if strings.HasPrefix url "http://" then
    ParseURL_rest "http" (strings.slice_from 7 url)
  else if strings.HasPrefix url "https://" then
    ParseURL_rest "https" (strings.slice_from 8 url)
  else
    ("", "", uint32 0, "", Some (errorString ("invalid host: " ++ url))).

(** *** URLs of the form [scheme://host[:port][/path]] *)

(** A port written in decimal digits, and the number it denotes. *)
Fixpoint all_digits (s : string) : bool :=
  match s with
  | EmptyString => true
  | String c s' => (strconv.is_digit c && all_digits s')%bool
  end.

Fixpoint decimal_from (n : Z) (s : string) : Z :=
  match s with
  | EmptyString => n
  | String c s' => decimal_from (n * 10 + strconv.digit_val c) s'
  end.

Definition decimal (s : string) : Z := decimal_from 0 s.

(** The text of a URL with an optional port and an optional path; the path
    [Some q] stands for the segment [/q]. *)
Definition url_of (scheme host : string) (port path : option string) : string :=
  scheme ++ "://" ++ host
  ++ match port with Some p => String ":" p | None => "" end
  ++ match path with Some q => String "/" q | None => "" end.

Definition default_port (scheme : string) : Z :=
  if String.eqb scheme "http" then 80 else 443.

(** A well-formed port: decimal digits, at least one, denoting a number that
    fits the 32 bits of the result. *)
Definition port_ok (port : option string) : Prop :=
  match port with
  | Some p => (0 < String.length p)%nat /\ all_digits p = true /\ decimal p < 2 ^ 32
  | None => True
  end.

(** The texts [strconv.Atoi] takes for a number: an optional sign and at
    least one decimal digit, denoting a value in the range of [int]. *)
Definition int_text (s : string) : Prop :=
  exists sign digits,
    s = sign ++ digits
    /\ (sign = "" \/ sign = "+" \/ sign = "-")
    /\ digits <> ""
    /\ all_digits digits = true
    /\ (if String.eqb sign "-" then decimal digits <= 2 ^ 63
        else decimal digits < 2 ^ 63).

(** A well-formed host: no [:] and no [/] in it. *)
Definition host_ok (host : string) : Prop :=
  strings.Count ":" host = O /\ strings.Count "/" host = O.

(** ** The request executor and its collaborators *)

Record HTTPParam : Type := {
  Method : string;
  Path : string;
  ClusterName : string;
  KusciaSource : string;
  KusciaHost : string;
  (** [map[string]string], as the pairs the [range] loop visits, in the
      order it visits them. *)
  Headers : list (string * string)
}.

Inductive ErrType : Type :=
| NewHTTPRequestError
| InParameterMarshalToJSONError
| OutParameterRunMarshalFromJSONError
| ResponseStatusCodeNotOK
| DoHTTPError
| IOError.

(** [*http.Response], reduced to what the executor looks at: the status code
    and what [io.ReadAll(resp.Body)] yields (the bytes read, and the read
    error if any). *)
Record Response : Type := {
  StatusCode : Z;
  Body : string * option error
}.

(** What [client.Do] hands back.  On an error the response is [nil], except
    that a failed redirect check returns both a response (with its body
    closed) and an error. *)
Inductive DoResult : Type :=
| DoOk (resp : Response)
| DoErr (err : error)
| DoErrResp (resp : Response) (err : error).

(** The collaborators of the executor: the wire codec, the request builder
    and the transport of the Go standard library, and the two package-level
    constants [InternalServer] and [ServiceHandshake], which are declared in
    another file of the package. *)
Record Env : Type := {
  In : Type;                      (* dynamic type behind [in interface{}] *)
  Out : Type;                     (* the value [out] points to *)
  Request : Type;                 (* [http.Request] *)
  Net : Type;                     (* the state of the network and the peer *)
  InternalServer : string;
  ServiceHandshake : string;
  Quote : string -> string;       (* [strconv.Quote] *)
  json_Marshal : In -> string + error;
      (* [json.Marshal]: the bytes, or [nil] and an error *)
  http_NewRequest : string -> string -> option string -> Request + error;
      (* [http.NewRequest(method, url, body)]: the request, or [nil] and an error *)
  Header_Set : Request -> string -> string -> Request;
      (* [req.Header.Set(key, value)] *)
  client_Do : Request -> Net -> DoResult * Net;
  json_Unmarshal : string -> Out -> Out * option error
      (* [json.Unmarshal(body, out)]: the value left in [out], and the error *)
}.

(** How a statement of a function body with result type [R] ends: it falls
    through to the next statement with a value, executes [return], or
    panics. *)
Inductive outcome (R A : Type) : Type :=
| Next (a : A)
| Return (r : R)
| Panic (msg : string).
Arguments Next {R A} a.
Arguments Return {R A} r.
Arguments Panic {R A} msg.

Definition MethodGet : string := "GET".
Definition StatusOK : Z := 200.

Section Executor.

Variable E : Env.

(** The method [Error()] of an error value. *)
Fixpoint Error (e : error) : string :=
  match e with
  | errorString s => s
  | NumError fn num err =>
      "strconv." ++ fn ++ ": parsing " ++ Quote E num ++ ": " ++ Error err
  end.

(** *** Traces *)

(** One event per call that leaves the executor, with the result the call
    gave; [EvEnter] marks the entry into [DoHTTPWithHandler], the start of
    an attempt, and [EvClose] the deferred [resp.Body.Close()]. *)
Inductive event : Type :=
| EvEnter
| EvMarshal (v : In E) (r : string + error)
| EvNewRequest (method url : string) (body : option string) (r : Request E + error)
| EvDo (req : Request E) (r : DoResult)
| EvReadAll (r : string * option error)
| EvClose
| EvUnmarshal (body : string) (err : option error)
| EvHandler (et : ErrType) (err : error)
| EvSleep (d : Z).

(** The part of the world an execution acts on: the value behind [out]
    and the network. *)
Record World : Type := {
  out : Out E;
  net : Net E
}.

(** *** Function bodies

    A statement of a function body runs on the world and on the variables
    [H] its callback has captured; it yields how it ended, the state it
    left, and the events it produced, in the order they happened. *)
Definition Go (H R A : Type) : Type :=
  World * H -> outcome R A * (World * H) * list event.

Definition ret {H R A} (a : A) : Go H R A := fun s => (Next a, s, []).
Definition return_ {H R A} (r : R) : Go H R A := fun s => (Return r, s, []).
Definition panic {H R A} (msg : string) : Go H R A := fun s => (Panic msg, s, []).

Definition bind {H R A B} (m : Go H R A) (k : A -> Go H R B) : Go H R B :=
  fun s =>
    match m s with
    | (Next a, s', evs) =>
        let '(o, s'', evs') := k a s' in (o, s'', (evs ++ evs')%list)
    | (Return r, s', evs) => (Return r, s', evs)
    | (Panic msg, s', evs) => (Panic msg, s', evs)
    end.

Notation "x <- m ;; k" := (bind m (fun x => k))
  (at level 61, m at next level, right associativity).
Notation "m ;; k" := (bind m (fun _ => k))
  (at level 61, right associativity).

Definition emit {H R} (ev : event) : Go H R unit :=
  fun s => (Next tt, s, [ev]).

(** [defer f()]: [f] runs when the function is left, however it is left. *)
Definition defer {H R A} (ev : event) (rest : Go H R A) : Go H R A :=
  fun s => let '(o, s', evs) := rest s in (o, s', (evs ++ [ev])%list).

Definition nil_dereference : string :=
  "runtime error: invalid memory address or nil pointer dereference".

(** *** Calls to the collaborators *)

Definition Marshal {H R} (v : In E) : Go H R (string + error) :=
  let r := json_Marshal E v in emit (EvMarshal v r) ;; ret r.

Definition NewRequest {H R} (method url : string) (body : option string)
  : Go H R (Request E + error) :=
  let r := http_NewRequest E method url body in
  emit (EvNewRequest method url body r) ;; ret r.

Definition Do {H R} (req : Request E) : Go H R DoResult :=
  fun '(w, h) =>
    let '(r, n) := client_Do E req (net w) in
    (Next r, ({| out := out w; net := n |}, h), [EvDo req r]).

Definition ReadAll {H R} (resp : Response) : Go H R (string * option error) :=
  emit (EvReadAll (Body resp)) ;; ret (Body resp).

Definition Unmarshal {H R} (body : string) : Go H R (option error) :=
  fun '(w, h) =>
    let '(o, err) := json_Unmarshal E body (out w) in
    (Next err, ({| out := o; net := net w |}, h), [EvUnmarshal body err]).

Definition Sleep {H R} (d : Z) : Go H R unit := emit (EvSleep d).

(** *** [DoHTTPWithHandler] *)

(** A callback [func(et ErrType, err error)] acting on its captured
    variables [H]; [None] is the [nil] function value. *)
Definition handler_t (H : Type) : Type := option (ErrType -> error -> H -> H).

Definition invoke {H R} (f : ErrType -> error -> H -> H) (et : ErrType) (err : error)
  : Go H R unit :=
  fun '(w, h) => (Next tt, (w, f et err h), [EvHandler et err]).

(** [if err != nil && handler != nil { handler(et, err); return }] *)
Definition check {H} (handler : handler_t H) (err : option error) (et : ErrType)
  : Go H unit unit :=
  match err, handler with
  | Some e, Some f => invoke f et e ;; return_ tt
  | _, _ => ret tt
  end.

(** The two halves of a Go result pair [(value, err)]. *)
Definition err_of {A} (r : A + error) : option error :=
  match r with inl _ => None | inr e => Some e end.
Definition val_of {A} (r : A + error) : option A :=
  match r with inl a => Some a | inr _ => None end.
Definition do_err (r : DoResult) : option error :=
  match r with DoOk _ => None | DoErr e | DoErrResp _ e => Some e end.
Definition do_resp (r : DoResult) : option Response :=
  match r with DoOk resp | DoErrResp resp _ => Some resp | DoErr _ => None end.

(** [if len(body) > 200 { body = body[:200] }] *)
Definition truncate200 (body : string) : string :=
  if Nat.ltb 200 (String.length body) then strings.slice_to 200 body else body.

Definition set_headers (hp : HTTPParam) (req : Request E) : Request E :=
  let req := Header_Set E req "Content-Type" "application/json" in
  let req := Header_Set E req (ServiceHandshake E ++ "-Cluster") (ClusterName hp) in
  let req := Header_Set E req "Kuscia-Source" (KusciaSource hp) in
  let req := Header_Set E req "kuscia-Host" (KusciaHost hp) in
  fold_left (fun r kv => Header_Set E r (fst kv) (snd kv)) (Headers hp) req.

Definition DoHTTPWithHandler {H} (in_ : In E) (hp : HTTPParam) (handler : handler_t H)
  : Go H unit unit :=
  emit EvEnter ;;
  req <- (if String.eqb (Method hp) MethodGet then
            r <- NewRequest MethodGet (InternalServer E ++ Path hp) None ;;
            check handler (err_of r) NewHTTPRequestError ;;
            ret (val_of r)
          else
            m <- Marshal in_ ;;
            check handler (err_of m) InParameterMarshalToJSONError ;;
            let inbody := match m with inl b => b | inr _ => "" end in
            r <- NewRequest (Method hp) (InternalServer E ++ Path hp) (Some inbody) ;;
            check handler (err_of r) NewHTTPRequestError ;;
            ret (val_of r)) ;;
  match req with
  | None => panic nil_dereference
  | Some req =>
      let req := set_headers hp req in
      d <- Do req ;;
      check handler (do_err d) DoHTTPError ;;
      match do_resp d with
      | None => panic nil_dereference
      | Some resp =>
          defer EvClose
            (b <- ReadAll resp ;;
             let '(body, err) := b in
             check handler err IOError ;;
             (match negb (StatusCode resp =? StatusOK), handler with
              | true, Some f =>
                  let body := truncate200 body in
                  invoke f ResponseStatusCodeNotOK
                    (errorString ("code: " ++ fmt_d (StatusCode resp)
                                  ++ ", message: " ++ body)) ;;
                  return_ tt
              | _, _ => ret tt
              end) ;;
             u <- Unmarshal body ;;
             match u, handler with
             | Some e, Some f =>
                 let body := truncate200 body in
                 invoke f OutParameterRunMarshalFromJSONError
                   (errorString (Error e ++ ", body:" ++ body)) ;;
                 return_ tt
             | _, _ => ret tt
             end)
      end
  end.

(** *** [DoHTTP] *)

Definition genErrorPrefix (hp : HTTPParam) : string :=
  "request(method:" ++ Method hp ++ " path:" ++ Path hp
  ++ " cluster:" ++ ClusterName hp ++ " host:" ++ KusciaHost hp ++ ")".

(** The closure [DoHTTP] passes down; its captured variable is [e]. *)
Definition DoHTTP_handler (hp : HTTPParam) (et : ErrType) (err : error)
  (e : option error) : option error :=
  match et with
  | NewHTTPRequestError =>
      Some (errorString (genErrorPrefix hp ++ " new fail:" ++ Error err))
  | InParameterMarshalToJSONError =>
      Some (errorString (genErrorPrefix hp ++ " in parameter marshal to json fail:" ++ Error err))
  | OutParameterRunMarshalFromJSONError =>
      Some (errorString (genErrorPrefix hp ++ " out parameter unmarshal from json fail:" ++ Error err))
  | ResponseStatusCodeNotOK =>
      Some (errorString (genErrorPrefix hp ++ " get code is not ok: " ++ Error err))
  | DoHTTPError =>
      Some (errorString (genErrorPrefix hp ++ " do fail: " ++ Error err))
  | IOError =>
      Some (errorString (genErrorPrefix hp ++ " read body fail: " ++ Error err))
  end.

(** [var e error; DoHTTPWithHandler(in, out, hp, func ...); return e] *)
Definition DoHTTP {R} (in_ : In E) (hp : HTTPParam) : Go unit R (option error) :=
  fun '(w, u) =>
    match DoHTTPWithHandler in_ hp (Some (DoHTTP_handler hp)) (w, None) with
    | (Next _, (w', e), evs) | (Return _, (w', e), evs) => (Next e, (w', u), evs)
    | (Panic msg, (w', _), evs) => (Panic msg, (w', u), evs)
    end.

(** *** [DoHTTPWithRetry] *)

(** The [for] loop with [n] iterations left; [err] is the variable [err]. *)
Fixpoint retry_loop (n : nat) (in_ : In E) (hp : HTTPParam) (waitTime : Z)
  (err : option error) : Go unit (option error) (option error) :=
  match n with
  | O => ret err
  | S n' =>
      err <- DoHTTP in_ hp ;;
      match err with
      | None => return_ None
      | Some _ => Sleep waitTime ;; retry_loop n' in_ hp waitTime err
      end
  end.

Definition DoHTTPWithRetry (in_ : In E) (hp : HTTPParam) (waitTime maxRetryTimes : Z)
  : Go unit (option error) (option error) :=
  err <- retry_loop (Z.to_nat maxRetryTimes) in_ hp waitTime None ;;
  match err with
  | None => panic nil_dereference
  | Some e =>
      return_ (Some (errorString
        ("request error, retry at maxtimes:" ++ fmt_d maxRetryTimes
         ++ ", path: " ++ Path hp ++ ", err:" ++ Error e)))
  end.

(** *** Observations *)

Definition result {H R A} (x : outcome R A * (World * H) * list event)
  : outcome R A := fst (fst x).
Definition world {H R A} (x : outcome R A * (World * H) * list event)
  : World := fst (snd (fst x)).
Definition captured {H R A} (x : outcome R A * (World * H) * list event)
  : H := snd (snd (fst x)).
Definition events {H R A} (x : outcome R A * (World * H) * list event)
  : list event := snd x.

Definition is_handler_call (ev : event) : bool :=
  match ev with EvHandler _ _ => true | _ => false end.
Definition is_sleep (ev : event) : bool :=
  match ev with EvSleep _ => true | _ => false end.
Definition is_attempt (ev : event) : bool :=
  match ev with EvEnter => true | _ => false end.
Definition is_marshal (ev : event) : bool :=
  match ev with EvMarshal _ _ => true | _ => false end.
Definition is_unmarshal (ev : event) : bool :=
  match ev with EvUnmarshal _ _ => true | _ => false end.

Definition count (p : event -> bool) (evs : list event) : nat :=
  List.length (filter p evs).

(** A step that failed: a collaborator returned an error, or the response
    came back with a status other than 200. *)
Definition failed_step (ev : event) : bool :=
  match ev with
  | EvMarshal _ (inr _) => true
  | EvNewRequest _ _ _ (inr _) => true
  | EvDo _ (DoOk resp) => negb (StatusCode resp =? StatusOK)
  | EvDo _ _ => true
  | EvReadAll (_, Some _) => true
  | EvUnmarshal _ (Some _) => true
  | _ => false
  end.

(** An attempt fails when one of its steps does. *)
Definition attempt_failed (evs : list event) : bool := existsb failed_step evs.

(** One single-attempt execution, [DoHTTP(in, out, hp)], from the world [w]. *)
Definition attempt (in_ : In E) (hp : HTTPParam) (w : World)
  : outcome (option error) (option error) * (World * unit) * list event :=
  DoHTTP in_ hp (w, tt).

(** The world in which attempt [k + 1] starts when the [k] attempts before
    it have been made ([time.Sleep] leaves the world as it is). *)
Fixpoint world_before_attempt (k : nat) (in_ : In E) (hp : HTTPParam)
  (w : World) : World :=
  match k with
  | O => w
  | S k' => world_before_attempt k' in_ hp (world (attempt in_ hp w))
  end.

(** Attempt [i + 1], counted from the world [w], returns an error. *)
Definition attempt_fails_at (i : nat) (in_ : In E) (hp : HTTPParam)
  (w : World) : Prop :=
  exists e, result (attempt in_ hp (world_before_attempt i in_ hp w)) = Next (Some e).

(** Attempt [i + 1], counted from the world [w], returns [nil]. *)
Definition attempt_succeeds_at (i : nat) (in_ : In E) (hp : HTTPParam)
  (w : World) : Prop :=
  result (attempt in_ hp (world_before_attempt i in_ hp w)) = Next None.

(** The text of the error [DoHTTPWithRetry] returns when it gives up. *)
Definition exhausted_message (maxRetryTimes : Z) (hp : HTTPParam) (e : error)
  : string :=
  "request error, retry at maxtimes:" ++ fmt_d maxRetryTimes
  ++ ", path: " ++ Path hp ++ ", err:" ++ Error e.

End Executor.

Arguments EvEnter {E}.
Arguments EvMarshal {E} v r.
Arguments EvNewRequest {E} method url body r.
Arguments EvDo {E} req r.
Arguments EvReadAll {E} r.
Arguments EvClose {E}.
Arguments EvUnmarshal {E} body err.
Arguments EvHandler {E} et err.
Arguments EvSleep {E} d.
Arguments out {E} w.
Arguments net {E} w.
Arguments result {E H R A} x.
Arguments world {E H R A} x.
Arguments captured {E H R A} x.
Arguments events {E H R A} x.
Arguments count {E} p evs.
Arguments is_handler_call {E} ev.
Arguments is_sleep {E} ev.
Arguments is_attempt {E} ev.
Arguments is_marshal {E} ev.
Arguments is_unmarshal {E} ev.
Arguments failed_step {E} ev.
Arguments attempt_failed {E} evs.

(** [sub] occurs in [s]. *)
Definition contains (s sub : string) : Prop :=
  exists pre post, s = pre ++ sub ++ post.

(** ** Stub collaborators

    A test double of the collaborators, as the testable properties of the
    specification use it: a transport that refuses every send ([None]) or
    its first [k] sends ([Some k]) and answers the others with a fixed
    response, and a decoder for a target of type [*[2]int]. *)

Module Stub.

Record request : Type := {
  r_method : string;
  r_url : string;
  r_body : option string;
  r_header : list (string * string)
}.

(** The decoder on a [*[2]int]: ["[7,8]"] fills both cells; ["[1,true]"]
    stores the first cell, cannot store a boolean in the second and, as
    [encoding/json] does on a type mismatch, goes on and reports the
    mismatch at the end; anything else is not JSON. *)
Definition decode (body : string) (o : Z * Z) : (Z * Z) * option error :=
  if String.eqb body "[7,8]" then ((7, 8), None)
  else if String.eqb body "[1,true]" then
    ((1, snd o),
     Some (errorString "json: cannot unmarshal bool into Go value of type int"))
  else (o, Some (errorString "invalid character looking for beginning of value")).

(** The input is [Some] text to send, or [None] for a value the encoder
    rejects (a channel, say). *)
Definition encode (v : option string) : string + error :=
  match v with
  | Some b => inl b
  | None => inr (errorString "json: unsupported type: chan int")
  end.

Definition new_request (method url : string) (body : option string)
  : request + error :=
  if String.eqb method "BAD METHOD" then
    inr (errorString "net/http: invalid method")
  else inl {| r_method := method; r_url := url; r_body := body; r_header := [] |}.

Definition header_set (r : request) (k v : string) : request :=
  {| r_method := r_method r; r_url := r_url r; r_body := r_body r;
     r_header := (k, v) :: r_header r |}.

(** The network state counts the sends so far. *)
Definition refuses (fails : option nat) (n : nat) : bool :=
  match fails with
  | None => true
  | Some k => Nat.ltb n k
  end.

Definition transport (fails : option nat) (resp : Response) (r : request) (n : nat)
  : DoResult * nat :=
  (if refuses fails n then DoErr (errorString "connection refused") else DoOk resp,
   S n).

Definition env (fails : option nat) (resp : Response) : Env := {|
  In := option string;
  Out := Z * Z;
  Request := request;
  Net := nat;
  InternalServer := "http://127.0.0.1:80";
  ServiceHandshake := "Kuscia-Handshake";
  Quote := fun s => s;
  json_Marshal := encode;
  http_NewRequest := new_request;
  Header_Set := header_set;
  client_Do := transport fails resp;
  json_Unmarshal := decode
|}.

Definition ok_response : Response :=
  {| StatusCode := 200; Body := ("[7,8]", None) |}.
Definition mismatch_response : Response :=
  {| StatusCode := 200; Body := ("[1,true]", None) |}.
Definition error_response : Response :=
  {| StatusCode := 500; Body := ("[7,8]", None) |}.

Definition get : HTTPParam := {|
  Method := "GET"; Path := "/api/v1/status"; ClusterName := "cluster";
  KusciaSource := "alice"; KusciaHost := "bob"; Headers := []
|}.
Definition post : HTTPParam := {|
  Method := "POST"; Path := "/api/v1/register"; ClusterName := "cluster";
  KusciaSource := "alice"; KusciaHost := "bob"; Headers := [("X-Trace", "1")]
|}.
Definition bad : HTTPParam := {|
  Method := "BAD METHOD"; Path := "/api/v1/register"; ClusterName := "cluster";
  KusciaSource := "alice"; KusciaHost := "bob"; Headers := []
|}.

Definition world0 (fails : option nat) (resp : Response) : World (env fails resp) :=
  @Build_World (env fails resp) (0, 0) O.

(** A callback that counts its calls. *)
Definition counting : handler_t nat := Some (fun _ _ n => S n).

End Stub.

(** ** Further observations *)

(** The number a sign and a run of digits denote. *)
Definition int_value (sign digits : string) : Z :=
  if String.eqb sign "-" then - decimal digits else decimal digits.

Definition is_send {E : Env} (ev : event E) : bool :=
  match ev with EvDo _ _ => true | _ => false end.
Definition is_new_request {E : Env} (ev : event E) : bool :=
  match ev with EvNewRequest _ _ _ _ => true | _ => false end.
Definition is_close {E : Env} (ev : event E) : bool :=
  match ev with EvClose => true | _ => false end.

(** The calls of [req.Header.Set] in one attempt, in the order of lines 120
    to 126: the four standard headers, then the caller's. *)
Definition header_writes (E : Env) (hp : HTTPParam) : list (string * string) :=
  [("Content-Type", "application/json");
   (ServiceHandshake E ++ "-Cluster", ClusterName hp);
   ("Kuscia-Source", KusciaSource hp);
   ("kuscia-Host", KusciaHost hp)] ++ Headers hp.

(** *** One attempt, as the specification describes it

    Section 4.2 of the specification gives an attempt as eight steps over
    what the collaborators return, and section 9 names its outcome: a
    failure with its category and error, or a success with the decoded
    value.  [spec_attempt] follows those steps; it is compared with what
    [DoHTTPWithHandler] does. *)
Inductive verdict (E : Env) : Type :=
| Failure (et : ErrType) (err : error)
| Success (o : Out E).
Arguments Failure {E} et err.
Arguments Success {E} o.

Definition spec_attempt (E : Env) (in_ : In E) (hp : HTTPParam) (w : World E)
  : verdict E :=
  let url := InternalServer E ++ Path hp in
  let built : Request E + ErrType * error :=
    if String.eqb (Method hp) MethodGet then
      (* step 1: a request with no body *)
      match http_NewRequest E MethodGet url None with
      | inl req => inl req
      | inr e => inr (NewHTTPRequestError, e)
      end
    else
      (* step 2: serialize the input, then build the request with it *)
      match json_Marshal E in_ with
      | inr e => inr (InParameterMarshalToJSONError, e)
      | inl inbody =>
          match http_NewRequest E (Method hp) url (Some inbody) with
          | inl req => inl req
          | inr e => inr (NewHTTPRequestError, e)
          end
      end in
  match built with
  | inr (et, e) => Failure et e
  | inl req =>
      (* steps 3 and 4: set the headers, send *)
      let '(d, _) := client_Do E (set_headers E hp req) (net w) in
      match d with
      | DoErr e | DoErrResp _ e => Failure DoHTTPError e
      | DoOk resp =>
          (* step 5: read the whole body *)
          let '(body, rerr) := Body resp in
          match rerr with
          | Some e => Failure IOError e
          | None =>
              if negb (StatusCode resp =? StatusOK) then
                (* step 6: the status and up to the first 200 bytes *)
                Failure ResponseStatusCodeNotOK
                  (errorString ("code: " ++ fmt_d (StatusCode resp)
                                ++ ", message: " ++ strings.slice_to 200 body))
              else
                (* steps 7 and 8: decode into the output location *)
                let '(o, derr) := json_Unmarshal E body (out w) in
                match derr with
                | Some e =>
                    Failure OutParameterRunMarshalFromJSONError
                      (errorString (Error E e ++ ", body:"
                                    ++ strings.slice_to 200 body))
                | None => Success o
                end
          end
      end
  end.

(** A stub response with a body of 210 bytes and the status 503. *)
Definition long_body : string :=
  "0123456789012345678901234567890123456789012345678901234567890123456789"
  ++ "0123456789012345678901234567890123456789012345678901234567890123456789"
  ++ "0123456789012345678901234567890123456789012345678901234567890123456789".
Definition long_error_response : Response :=
  {| StatusCode := 503; Body := (long_body, None) |}.

(** Reading a header back from a stub request: the most recent write to
    that very name. *)
Definition stub_header_get (r : Stub.request) (k : string) : option string :=
  match find (fun kv => String.eqb (fst kv) k) (Stub.r_header r) with
  | Some kv => Some (snd kv)
  | None => None
  end.


(** * Properties *)

(** ** Facts about [strings] *)

Section StringFacts.

Import strings.

Lemma HasPrefix_slice (p s : string) :
  HasPrefix s p = true -> s = p ++ slice_from (String.length p) s.
Proof.
  unfold HasPrefix. revert s.
  induction p as [|c p IH]; intros [|d s] Hp; simpl in *;
    try reflexivity; try discriminate.
  destruct (ascii_dec c d) as [->|]; [|discriminate].
  f_equal. now apply IH.
Qed.

Lemma HasPrefix_app (p s : string) : HasPrefix (p ++ s) p = true.
Proof.
  unfold HasPrefix. induction p as [|c p IH]; simpl.
  - now destruct s.
  - destruct (ascii_dec c c); [assumption|congruence].
Qed.

Lemma slice_from_app (p s : string) : slice_from (String.length p) (p ++ s) = s.
Proof. induction p; simpl; auto. Qed.

Lemma Count_app (sep : ascii) (a b : string) :
  Count sep (a ++ b) = (Count sep a + Count sep b)%nat.
Proof. induction a as [|c a IH]; simpl; [reflexivity|]. rewrite IH. lia. Qed.

Lemma cut_absent (sep : ascii) (s : string) :
  Count sep s = O -> cut sep s = None.
Proof.
  induction s as [|c s IH]; simpl; [reflexivity|].
  destruct (Ascii.eqb c sep); [discriminate|].
  intros Hc. now rewrite IH.
Qed.

Lemma cut_first (sep : ascii) (a b : string) :
  Count sep a = O -> cut sep (a ++ String sep b) = Some (a, b).
Proof.
  induction a as [|c a IH]; simpl.
  - now rewrite Ascii.eqb_refl.
  - destruct (Ascii.eqb c sep); [discriminate|].
    intros Hc. now rewrite IH.
Qed.

Lemma cut_None (sep : ascii) (s : string) :
  cut sep s = None -> Count sep s = O.
Proof.
  induction s as [|c s IH]; simpl; [reflexivity|].
  destruct (Ascii.eqb c sep); [discriminate|].
  destruct (cut sep s) as [[a b]|]; [discriminate|]. auto.
Qed.

Lemma cut_Some (sep : ascii) (s a b : string) :
  cut sep s = Some (a, b) -> s = a ++ String sep b /\ Count sep a = O.
Proof.
  revert a. induction s as [|c s IH]; simpl; intros a; [discriminate|].
  destruct (Ascii.eqb_spec c sep) as [->|Hne].
  - intros [= <- <-]. now split.
  - destruct (cut sep s) as [[a' b']|]; [|discriminate].
    intros [= <- <-]. destruct (IH a' eq_refl) as [-> Ha]. simpl.
    split; [reflexivity|].
    destruct (Ascii.eqb_spec c sep); [contradiction|assumption].
Qed.

Lemma genSplit_length (sep : ascii) (s : string) :
  List.length (genSplit (Count sep s) sep s) = S (Count sep s).
Proof.
  remember (Count sep s) as n eqn:Hn. revert s Hn.
  induction n as [|n IH]; intros s Hn; simpl; [reflexivity|].
  destruct (cut sep s) as [[a b]|] eqn:Hc.
  - apply cut_Some in Hc as [-> Ha]. simpl. f_equal. apply IH.
    rewrite Count_app in Hn. simpl in Hn. rewrite Ascii.eqb_refl in Hn. lia.
  - apply cut_None in Hc. congruence.
Qed.

Lemma Split_one (sep : ascii) (s : string) :
  Count sep s = O -> Split s sep = [s].
Proof. unfold Split. now intros ->. Qed.

Lemma Split_two (sep : ascii) (a b : string) :
  Count sep a = O -> Count sep b = O -> Split (a ++ String sep b) sep = [a; b].
Proof.
  intros Ha Hb. unfold Split. rewrite Count_app, Ha. simpl.
  rewrite Ascii.eqb_refl, Hb. simpl. now rewrite cut_first.
Qed.

Lemma Split_two_inv (sep : ascii) (s : string) :
  List.length (Split s sep) = 2%nat ->
  exists a b, s = a ++ String sep b /\ Count sep a = O /\ Count sep b = O
              /\ Split s sep = [a; b].
Proof.
  unfold Split. rewrite genSplit_length. intros [= Hn]. rewrite Hn. simpl.
  destruct (cut sep s) as [[a b]|] eqn:Hc.
  - apply cut_Some in Hc as [-> Ha]. exists a, b.
    rewrite Count_app in Hn. simpl in Hn. rewrite Ascii.eqb_refl in Hn.
    repeat split; auto. lia.
  - apply cut_None in Hc. congruence.
Qed.

Lemma SplitN_two_absent (sep : ascii) (s : string) :
  Count sep s = O -> SplitN s sep 2 = [s].
Proof. intros H. unfold SplitN. simpl. now rewrite cut_absent. Qed.

Lemma SplitN_two_first (sep : ascii) (a b : string) :
  Count sep a = O -> SplitN (a ++ String sep b) sep 2 = [a; b].
Proof. intros H. unfold SplitN. simpl. now rewrite cut_first. Qed.

Lemma slice_to_length (n : nat) (s : string) :
  (String.length (slice_to n s) <= n)%nat.
Proof.
  revert s. induction n as [|n IH]; intros [|c s]; simpl; try lia.
  specialize (IH s). lia.
Qed.

Lemma slice_to_prefix (n : nat) (s : string) :
  s = slice_to n s ++ slice_from n s.
Proof.
  revert s. induction n as [|n IH]; intros [|c s]; simpl; try reflexivity.
  f_equal. apply IH.
Qed.

End StringFacts.

Lemma slice_to_length_min (n : nat) (s : string) :
  String.length (strings.slice_to n s) = Nat.min n (String.length s).
Proof.
  revert s. induction n as [|n IH]; intros [|c s]; cbn; try reflexivity.
  now rewrite IH.
Qed.

Lemma slice_to_all (n : nat) (s : string) :
  (String.length s <= n)%nat -> strings.slice_to n s = s.
Proof.
  revert s. induction n as [|n IH]; intros [|c s]; cbn; try reflexivity; try lia.
  intros Hlen. f_equal. apply IH. lia.
Qed.

(** ** Facts about [strconv] *)

Section StrconvFacts.

Import strconv.

Lemma digit_not_char (c d : ascii) :
  is_digit c = true -> is_digit d = false -> Ascii.eqb c d = false.
Proof.
  intros Hc Hd. destruct (Ascii.eqb_spec c d) as [->|]; congruence.
Qed.

Lemma all_digits_Count (sep : ascii) (s : string) :
  is_digit sep = false -> all_digits s = true -> strings.Count sep s = O.
Proof.
  intros Hsep. induction s as [|c s IH]; simpl; [reflexivity|].
  intros [Hc Hs]%andb_prop. rewrite (digit_not_char c sep Hc Hsep), IH; auto.
Qed.

Lemma digit_val_range (c : ascii) : is_digit c = true -> 0 <= digit_val c <= 9.
Proof.
  unfold is_digit, digit_val. intros [H1 H2]%andb_prop.
  apply Nat.leb_le in H1, H2. lia.
Qed.

Lemma decimal_from_ge (s : string) (n : Z) :
  all_digits s = true -> 0 <= n -> n <= decimal_from n s.
Proof.
  revert n. induction s as [|c s IH]; simpl; intros n Hd Hn; [lia|].
  apply andb_prop in Hd as [Hc Hs]. pose proof (digit_val_range c Hc).
  specialize (IH (n * 10 + digit_val c) Hs). lia.
Qed.

Lemma atoi_loop_digits (s : string) (n : Z) :
  all_digits s = true -> atoi_loop s n = Some (decimal_from n s).
Proof.
  revert n. induction s as [|c s IH]; simpl; intros n Hd; [reflexivity|].
  apply andb_prop in Hd as [Hc Hs]. rewrite Hc. now apply IH.
Qed.

Lemma parseUint_loop_digits (s0 s : string) (n : Z) :
  all_digits s = true -> 0 <= n -> decimal_from n s <= maxUint64 ->
  parseUint_loop s0 s n = (decimal_from n s, None).
Proof.
  revert n. induction s as [|c s IH]; simpl; intros n Hd Hn Hle; [reflexivity|].
  apply andb_prop in Hd as [Hc Hs]. rewrite Hc.
  pose proof (digit_val_range c Hc) as Hv.
  pose proof (decimal_from_ge s (n * 10 + digit_val c) Hs ltac:(lia)) as Hge.
  unfold maxUint64 in *.
  change (2 ^ 64 - 1) with 18446744073709551615 in *.
  change (18446744073709551615 / 10 + 1) with 1844674407370955162.
  destruct (Z.geb_spec n 1844674407370955162); [lia|].
  destruct (Z.gtb_spec (n * 10 + digit_val c) 18446744073709551615); [lia|].
  apply IH; auto; lia.
Qed.

Lemma digit_not_sign (c : ascii) : is_digit c = true -> is_sign c = false.
Proof.
  intros Hc. unfold is_sign.
  rewrite (digit_not_char c "-"), (digit_not_char c "+"); auto.
Qed.

Lemma Atoi_digits (s : string) :
  s <> "" -> all_digits s = true -> decimal s < 2 ^ 63 ->
  Atoi s = (decimal s, None).
Proof.
  intros Hne Hd Hlt. destruct s as [|c rest]; [congruence|].
  pose proof Hd as Hd'. simpl in Hd'. apply andb_prop in Hd' as [Hc Hrest].
  pose proof (digit_not_sign c Hc) as Hsign.
  assert (Hminus : Ascii.eqb c "-" = false)
    by (apply digit_not_char; auto).
  unfold Atoi.
  destruct (Nat.ltb 0 (String.length (String c rest))
            && Nat.ltb (String.length (String c rest)) 19)%bool.
  - rewrite Hsign. simpl andb. cbv iota.
    rewrite (atoi_loop_digits _ 0 Hd), Hminus. reflexivity.
  - unfold ParseInt, ParseUint. rewrite Hsign, Hminus.
    change (2 ^ 63) with 9223372036854775808 in *.
    rewrite (parseUint_loop_digits _ _ 0 Hd); fold (decimal (String c rest)).
    + simpl negb. simpl andb.
      destruct (Z.geb_spec (decimal (String c rest)) 9223372036854775808); [lia|].
      reflexivity.
    + lia.
    + unfold maxUint64. change (2 ^ 64 - 1) with 18446744073709551615. lia.
Qed.

End StrconvFacts.

Section AtoiFacts.

Import strconv.

Lemma atoi_loop_inv (s : string) (n v : Z) :
  atoi_loop s n = Some v -> all_digits s = true /\ v = decimal_from n s.
Proof.
  revert n. induction s as [|c s IH]; simpl; intros n.
  - intros [= <-]. now split.
  - destruct (is_digit c); [|discriminate]. intros Hl.
    destruct (IH _ Hl) as [-> ->]. now split.
Qed.

Lemma decimal_from_bound (s : string) (n : Z) :
  all_digits s = true -> 0 <= n ->
  decimal_from n s < (n + 1) * 10 ^ Z.of_nat (String.length s).
Proof.
  revert n. induction s as [|c s IH]; intros n Hd Hn.
  - simpl. lia.
  - simpl in Hd. apply andb_prop in Hd as [Hc Hs].
    pose proof (digit_val_range c Hc) as Hv.
    cbn [decimal_from String.length]. rewrite Nat2Z.inj_succ, Z.pow_succ_r by lia.
    specialize (IH (n * 10 + digit_val c) Hs ltac:(lia)).
    assert (0 < 10 ^ Z.of_nat (String.length s)) by (apply Z.pow_pos_nonneg; lia).
    nia.
Qed.

Lemma decimal_short (s : string) :
  all_digits s = true -> (String.length s < 19)%nat -> decimal s < 2 ^ 63.
Proof.
  intros Hd Hlen. pose proof (decimal_from_bound s 0 Hd ltac:(lia)) as Hb.
  fold (decimal s) in Hb.
  assert (10 ^ Z.of_nat (String.length s) <= 10 ^ 18)
    by (apply Z.pow_le_mono_r; lia).
  change (10 ^ 18) with 1000000000000000000 in *.
  change (2 ^ 63) with 9223372036854775808. lia.
Qed.

Lemma parseUint_loop_inv (s0 s : string) (n un : Z) (err : option error) :
  0 <= n -> parseUint_loop s0 s n = (un, err) ->
  match err with
  | None => all_digits s = true /\ un = decimal_from n s
  | Some e =>
      e = syntaxError "ParseUint" s0
      \/ (e = rangeError "ParseUint" s0 /\ un = maxUint64)
  end.
Proof.
  revert n. induction s as [|c s IH]; cbn [parseUint_loop all_digits decimal_from];
    intros n Hn.
  - intros [= <- <-]. now split.
  - destruct (is_digit c) eqn:Hc; [|intros [= <- <-]; now left].
    cbn [andb].
    pose proof (digit_val_range c Hc) as Hv.
    destruct (n >=? maxUint64 / 10 + 1); [intros [= <- <-]; now right|].
    destruct (n * 10 + digit_val c >? maxUint64); [intros [= <- <-]; now right|].
    intros Hl. apply IH in Hl; [|lia]. exact Hl.
Qed.

Lemma is_sign_inv (c : ascii) :
  is_sign c = true -> c = "-"%char \/ c = "+"%char.
Proof.
  unfold is_sign. intros [H|H]%orb_prop; apply Ascii.eqb_eq in H; auto.
Qed.

Lemma all_digits_max (s : string) :
  all_digits s = true -> decimal s <= 2 ^ 63 -> decimal s <= maxUint64.
Proof.
  unfold maxUint64. change (2 ^ 63) with 9223372036854775808.
  change (2 ^ 64 - 1) with 18446744073709551615. lia.
Qed.

(** [ParseInt] on a sign and digits. *)
Lemma ParseInt_signed (c : ascii) (digits : string) :
  is_sign c = true -> digits <> "" -> all_digits digits = true ->
  (if Ascii.eqb c "-" then decimal digits <= 2 ^ 63 else decimal digits < 2 ^ 63) ->
  snd (ParseInt (String c digits)) = None.
Proof.
  intros Hsign Hne Hd Hrange. unfold ParseInt, ParseUint. rewrite Hsign.
  destruct digits as [|d ds]; [congruence|].
  assert (Hle : decimal (String d ds) <= 2 ^ 63)
    by (destruct (Ascii.eqb c "-"); lia).
  rewrite (parseUint_loop_digits _ _ 0 Hd ltac:(lia)
             (all_digits_max _ Hd Hle)).
  fold (decimal (String d ds)).
  change (2 ^ 63) with 9223372036854775808 in *.
  destruct (Ascii.eqb c "-"); cbn [negb andb].
  - destruct (Z.gtb_spec (decimal (String d ds)) 9223372036854775808); [lia|].
    reflexivity.
  - destruct (Z.geb_spec (decimal (String d ds)) 9223372036854775808); [lia|].
    reflexivity.
Qed.

Lemma ParseInt_inv (s : string) :
  snd (ParseInt s) = None -> int_text s.
Proof.
  unfold ParseInt. destruct s as [|c rest]; [discriminate|].
  set (s1 := if is_sign c then rest else String c rest).
  unfold ParseUint.
  destruct s1 as [|d ds] eqn:Hs1; [discriminate|].
  destruct (parseUint_loop (String d ds) (String d ds) 0) as [un err] eqn:Hl.
  apply parseUint_loop_inv in Hl; [|lia].
  change (2 ^ 63) with 9223372036854775808.
  destruct err as [e|].
  - destruct Hl as [-> | [-> ->]]; [discriminate|].
    unfold rangeError, ErrRange, maxUint64.
    change (2 ^ 64 - 1) with 18446744073709551615.
    destruct (Ascii.eqb c "-"); discriminate.
  - destruct Hl as [Hd ->]. fold (decimal (String d ds)).
    subst s1. destruct (is_sign c) eqn:Hsign.
    + subst rest. intros Hres.
      exists (String c ""), (String d ds). split; [reflexivity|].
      split; [destruct (is_sign_inv c Hsign) as [-> | ->]; auto|].
      split; [discriminate|]. split; [assumption|].
      change (2 ^ 63) with 9223372036854775808.
      change (String.eqb (String c "") "-") with
        (if Ascii.eqb c "-" then true else false).
      destruct (Ascii.eqb c "-"); cbn [negb andb] in Hres.
      * destruct (Z.gtb_spec (decimal (String d ds)) 9223372036854775808);
          [discriminate|lia].
      * destruct (Z.geb_spec (decimal (String d ds)) 9223372036854775808);
          [discriminate|lia].
    + injection Hs1 as <- <-. intros Hres.
      exists "", (String c rest). split; [reflexivity|].
      split; [auto|]. split; [discriminate|]. split; [assumption|].
      change (2 ^ 63) with 9223372036854775808. cbn [String.eqb].
      assert (Hm : Ascii.eqb c "-" = false).
      { unfold is_sign in Hsign. now apply orb_false_elim in Hsign. }
      rewrite Hm in Hres. cbn [negb andb] in Hres.
      destruct (Z.geb_spec (decimal (String c rest)) 9223372036854775808);
        [discriminate|lia].
Qed.

(** [Atoi] returns no error exactly on the texts of [int_text]. *)
Lemma Atoi_ok_iff (s : string) : snd (Atoi s) = None <-> int_text s.
Proof.
  split.
  - unfold Atoi.
    destruct (Nat.ltb 0 (String.length s) && Nat.ltb (String.length s) 19)%bool
      eqn:Hfast.
    + apply andb_prop in Hfast as [_ Hlen%Nat.ltb_lt].
      destruct s as [|c rest]; [discriminate|].
      destruct (is_sign c) eqn:Hsign.
      * destruct rest as [|d ds]; [discriminate|]. cbn [String.length Nat.ltb Nat.leb andb].
        destruct (atoi_loop (String d ds) 0) as [n|] eqn:Hl; [|discriminate].
        apply atoi_loop_inv in Hl as [Hd _]. intros _.
        exists (String c ""), (String d ds). split; [reflexivity|].
        split; [destruct (is_sign_inv c Hsign) as [-> | ->]; auto|].
        split; [discriminate|]. split; [assumption|].
        assert (decimal (String d ds) < 2 ^ 63).
        { apply decimal_short; auto. cbn [String.length] in *. lia. }
        destruct (String.eqb (String c "") "-"); lia.
      * cbn [andb].
        destruct (atoi_loop (String c rest) 0) as [n|] eqn:Hl; [|discriminate].
        apply atoi_loop_inv in Hl as [Hd _]. intros _.
        exists "", (String c rest). split; [reflexivity|].
        split; [auto|]. split; [discriminate|]. split; [assumption|].
        cbn [String.eqb]. now apply decimal_short.
    + destruct (ParseInt s) as [i64 err] eqn:Hp. intros Herr.
      apply ParseInt_inv. rewrite Hp. cbn [snd] in *.
      destruct err as [[?|? ? ?]|]; [discriminate|discriminate|reflexivity].
  - intros (sign & digits & -> & Hsign & Hne & Hd & Hrange).
    destruct Hsign as [-> | Hsign].
    + cbn [String.append String.eqb] in *. rewrite Atoi_digits; auto.
    + assert (Hc : exists c, sign = String c "" /\ is_sign c = true
                    /\ String.eqb sign "-" = Ascii.eqb c "-").
      { destruct Hsign as [-> | ->]; eexists; repeat split. }
      destruct Hc as (c & -> & Hsc & Heq). rewrite Heq in Hrange.
      cbn [String.append]. unfold Atoi.
      destruct (Nat.ltb 0 (String.length (String c digits))
                && Nat.ltb (String.length (String c digits)) 19)%bool.
      * rewrite Hsc. destruct digits as [|d ds]; [congruence|].
        cbn [String.length Nat.ltb Nat.leb andb].
        rewrite (atoi_loop_digits _ 0 Hd). reflexivity.
      * pose proof (ParseInt_signed c digits Hsc Hne Hd Hrange) as Hp.
        destruct (ParseInt (String c digits)) as [i64 err].
        cbn [snd] in Hp. now subst err.
Qed.

End AtoiFacts.

(** ** [ParseURL] *)

Example ParseURL_ex1 :
  ParseURL "http://example.com/foo" = ("http", "example.com", 80, "/foo", None).
Proof. reflexivity. Qed.

Example ParseURL_ex2 :
  ParseURL "https://example.com:8443" = ("https", "example.com", 8443, "", None).
Proof. reflexivity. Qed.

Example ParseURL_ex3 :
  ParseURL "ftp://x" = ("", "", 0, "", Some (errorString "invalid host: ftp://x")).
Proof. reflexivity. Qed.


Section ParseURLFacts.

Import strings.

Lemma append_assoc3 (a b c : string) : a ++ b ++ c = (a ++ b) ++ c.
Proof. induction a as [|x a IH]; simpl; [reflexivity|]. now rewrite IH. Qed.

Lemma append_empty_r (a : string) : a ++ "" = a.
Proof. induction a as [|x a IH]; simpl; [reflexivity|]. now rewrite IH. Qed.

Lemma port_part_Count (sep : ascii) (port : option string) :
  strconv.is_digit sep = false -> Ascii.eqb ":" sep = false -> port_ok port ->
  Count sep match port with Some p => String ":" p | None => "" end = O.
Proof.
  intros Hsep Hcolon Hp. destruct port as [p|]; cbn [Count]; [|reflexivity].
  destruct Hp as (_ & Hd & _). rewrite Hcolon.
  now rewrite all_digits_Count.
Qed.

Lemma hostport_parts (host : string) (port path : option string) :
  host_ok host -> port_ok port ->
  SplitN (host ++ match port with Some p => String ":" p | None => "" end
               ++ match path with Some q => String "/" q | None => "" end) "/" 2
  = (host ++ match port with Some p => String ":" p | None => "" end)
      :: match path with Some q => [q] | None => [] end.
Proof.
  intros [_ Hh] Hp.
  assert (Hc : Count "/" (host ++ match port with Some p => String ":" p | None => "" end) = O).
  { rewrite Count_app, Hh, (port_part_Count "/" port); auto. }
  destruct path as [q|].
  - rewrite append_assoc3. now apply SplitN_two_first.
  - rewrite append_empty_r. now apply SplitN_two_absent.
Qed.

Lemma hostport_fields (host : string) (port : option string) :
  host_ok host -> port_ok port ->
  Split (host ++ match port with Some p => String ":" p | None => "" end) ":"
  = host :: match port with Some p => [p] | None => [] end.
Proof.
  intros [Hh _] Hp. destruct port as [p|].
  - destruct Hp as (_ & Hd & _). apply Split_two; auto.
    now apply all_digits_Count.
  - rewrite append_empty_r. now apply Split_one.
Qed.

Lemma ParseURL_no_scheme (url : string) :
  HasPrefix url "http://" = false -> HasPrefix url "https://" = false ->
  ParseURL url = ("", "", 0, "", Some (errorString ("invalid host: " ++ url))).
Proof. intros H1 H2. unfold ParseURL. now rewrite H1, H2. Qed.

Lemma ParseURL_scheme (scheme rest : string) :
  scheme = "http" \/ scheme = "https" ->
  ParseURL (scheme ++ "://" ++ rest) = ParseURL_rest scheme rest.
Proof.
  unfold ParseURL. intros [-> | ->].
  - change ("http" ++ "://" ++ rest) with ("http://" ++ rest).
    now rewrite HasPrefix_app.
  - change ("https" ++ "://" ++ rest) with ("https://" ++ rest).
    rewrite HasPrefix_app.
    now replace (HasPrefix ("https://" ++ rest) "http://") with false
      by reflexivity.
Qed.

Lemma ParseURL_form (scheme host : string) (port path : option string) :
  scheme = "http" \/ scheme = "https" -> host_ok host -> port_ok port ->
  ParseURL (url_of scheme host port path)
  = (scheme, host,
     match port with Some p => decimal p | None => default_port scheme end,
     match path with Some q => String "/" q | None => "" end,
     None).
Proof.
  intros Hs Hh Hp. unfold url_of.
  rewrite ParseURL_scheme by assumption. unfold ParseURL_rest.
  rewrite hostport_parts by assumption. cbn [nth].
  rewrite hostport_fields by assumption.
  destruct port as [p|].
  - destruct Hp as (Hne & Hd & Hlt).
    cbn [List.length nth Nat.eqb].
    rewrite Atoi_digits; auto.
    + assert (Hu : uint32 (decimal p) = decimal p).
      { unfold uint32. apply Z.mod_small. split; [|assumption].
        unfold decimal. now apply decimal_from_ge. }
      rewrite Hu. now destruct path.
    + destruct p; [simpl in Hne; lia | discriminate].
    + change (2 ^ 32) with 4294967296 in Hlt.
      change (2 ^ 63) with 9223372036854775808. lia.
  - cbn [List.length nth Nat.eqb].
    assert (Hu : uint32 (if String.eqb scheme "http" then 80 else 443)
                 = default_port scheme).
    { unfold default_port. now destruct Hs as [-> | ->]. }
    rewrite Hu. now destruct path.
Qed.

Lemma ParseURL_rest_error (protocol hostPort : string) :
  snd (ParseURL_rest protocol hostPort) <> None <->
  exists host port path,
    hostPort = host ++ String ":" port ++ path
    /\ Count ":" host = O /\ Count "/" host = O
    /\ Count ":" port = O /\ Count "/" port = O
    /\ (path = "" \/ exists q, path = String "/" q)
    /\ snd (strconv.Atoi port) <> None.
Proof.
  split.
  - unfold ParseURL_rest, SplitN. cbn [Nat.sub genSplit].
    destruct (cut "/" hostPort) as [[hp q]|] eqn:Hcut.
    + apply cut_Some in Hcut as [-> Hslash]. cbn [nth List.length Nat.ltb Nat.leb].
      destruct (Nat.eqb_spec (List.length (Split hp ":")) 2) as [Hlen|Hlen];
        [|intros H; now contradiction H].
      apply Split_two_inv in Hlen as (host & port & -> & Hh & Hp & ->).
      cbn [nth]. rewrite Count_app in Hslash. cbn [Count] in Hslash.
      replace (Ascii.eqb ":" "/") with false in Hslash by reflexivity.
      destruct (strconv.Atoi port) as [v [e|]] eqn:Hatoi;
        [|intros H; now contradiction H].
      intros _. exists host, port, (String "/" q).
      repeat split; auto; try lia.
      * now rewrite <- append_assoc3.
      * right. now exists q.
      * rewrite Hatoi. discriminate.
    + apply cut_None in Hcut as Hslash. cbn [nth List.length Nat.ltb Nat.leb].
      destruct (Nat.eqb_spec (List.length (Split hostPort ":")) 2) as [Hlen|Hlen];
        [|intros H; now contradiction H].
      apply Split_two_inv in Hlen as (host & port & -> & Hh & Hp & ->).
      cbn [nth]. rewrite Count_app in Hslash. cbn [Count] in Hslash.
      replace (Ascii.eqb ":" "/") with false in Hslash by reflexivity.
      destruct (strconv.Atoi port) as [v [e|]] eqn:Hatoi;
        [|intros H; now contradiction H].
      intros _. exists host, port, "".
      repeat split; auto; try lia.
      * now rewrite append_empty_r.
      * rewrite Hatoi. discriminate.
  - intros (host & port & path & -> & Hh & Hhs & Hp & Hps & Hpath & Herr).
    unfold ParseURL_rest.
    assert (Hc : Count "/" (host ++ String ":" port) = O).
    { rewrite Count_app, Hhs. cbn [Count].
      replace (Ascii.eqb ":" "/") with false by reflexivity. now rewrite Hps. }
    assert (Hparts : nth 0 (SplitN (host ++ String ":" port ++ path) "/" 2) ""
                     = host ++ String ":" port).
    { destruct Hpath as [-> | [q ->]].
      - rewrite append_empty_r, SplitN_two_absent; auto.
      - change (String ":" port ++ String "/" q)
          with ((String ":" port) ++ String "/" q).
        rewrite append_assoc3, SplitN_two_first; auto. }
    rewrite Hparts, Split_two by assumption. cbn [List.length nth Nat.eqb].
    destruct (strconv.Atoi port) as [v [e|]]; [discriminate|].
    now contradiction Herr.
Qed.

End ParseURLFacts.

(** C3. For every well-formed input [scheme://host[:port][/path]] with the
    scheme [http] or [https], a host without [:] and [/], and a port of
    decimal digits below 2^32, [ParseURL] returns that scheme, that host,
    the number the port denotes (80 for [http] and 443 for [https] when
    there is none) and the path with its leading [/] (the empty string when
    there is none), and no error; on an input that starts with neither
    [http://] nor [https://] it returns the error [invalid host: ] followed
    by the input. *)
Theorem ParseURL_well_formed :
  (forall (scheme host : string) (port path : option string),
      scheme = "http" \/ scheme = "https" -> host_ok host -> port_ok port ->
      ParseURL (url_of scheme host port path)
      = (scheme, host,
         match port with Some p => decimal p | None => default_port scheme end,
         match path with Some q => String "/" q | None => "" end,
         None))
  /\ (forall url : string,
        strings.HasPrefix url "http://" = false ->
        strings.HasPrefix url "https://" = false ->
        ParseURL url = ("", "", 0, "", Some (errorString ("invalid host: " ++ url)))).
Proof.
  split.
  - apply ParseURL_form.
  - apply ParseURL_no_scheme.
Qed.

Lemma ParseURL_well_formed_witness :
  ParseURL (url_of "https" "example.com" (Some "8443") (Some "a/b"))
  = ("https", "example.com", 8443, "/a/b", None)
  /\ ParseURL (url_of "http" "example.com" None None)
     = ("http", "example.com", 80, "", None)
  /\ ParseURL "ftp://x" = ("", "", 0, "", Some (errorString "invalid host: ftp://x")).
Proof.
  split; [|split].
  - apply (proj1 ParseURL_well_formed "https" "example.com" (Some "8443") (Some "a/b")).
    + right; reflexivity.
    + split; reflexivity.
    + simpl. repeat split. lia.
  - apply (proj1 ParseURL_well_formed "http" "example.com" None None).
    + left; reflexivity.
    + split; reflexivity.
    + simpl. exact I.
  - apply (proj2 ParseURL_well_formed "ftp://x"); reflexivity.
Defined.

(** C2, as stated, fails: a host-port segment with two [:], a port that is
    a negative number, and an empty host are all accepted without an
    error. *)
Lemma ParseURL_malformed_accepted :
  ParseURL "http://a:1:2" = ("http", "a", 80, "", None)
  /\ ParseURL "http://h:-1" = ("http", "h", 4294967295, "", None)
  /\ ParseURL "http://:8080/x" = ("http", "", 8080, "/x", None).
Proof. repeat split. Qed.

(** C2, amended. [ParseURL] returns an error in exactly two cases: the input
    starts with neither [http://] nor [https://]; or the host-port segment
    (the text between the scheme and the first [/]) has exactly one [:] and
    the text after it is not one [strconv.Atoi] takes for a number, that is
    an optional sign and at least one decimal digit, with a value in the
    range of [int].  Every other input gives a result without an error. *)
Theorem ParseURL_error_iff (url : string) :
  snd (ParseURL url) <> None <->
  (strings.HasPrefix url "http://" = false
   /\ strings.HasPrefix url "https://" = false)
  \/ exists scheme host port path,
       (scheme = "http" \/ scheme = "https")
       /\ url = scheme ++ "://" ++ host ++ String ":" port ++ path
       /\ strings.Count ":" host = O /\ strings.Count "/" host = O
       /\ strings.Count ":" port = O /\ strings.Count "/" port = O
       /\ (path = "" \/ exists q, path = String "/" q)
       /\ ~ int_text port.
Proof.
  assert (Hrest : forall protocol rest,
    snd (ParseURL_rest protocol rest) <> None <->
    exists host port path,
      rest = host ++ String ":" port ++ path
      /\ strings.Count ":" host = O /\ strings.Count "/" host = O
      /\ strings.Count ":" port = O /\ strings.Count "/" port = O
      /\ (path = "" \/ exists q, path = String "/" q)
      /\ ~ int_text port).
  { intros protocol rest. rewrite ParseURL_rest_error.
    split; intros (host & port & path & H1 & H2 & H3 & H4 & H5 & H6 & H7);
      exists host, port, path; repeat (split; [assumption|]);
      intros Hok; apply H7; now apply Atoi_ok_iff. }
  split.
  - intros Herr. unfold ParseURL in Herr.
    destruct (strings.HasPrefix url "http://") eqn:H1.
    + right. apply HasPrefix_slice in H1.
      apply Hrest in Herr as (host & port & path & Hr & H).
      exists "http", host, port, path. split; [now left|]. split; [|exact H].
      rewrite H1 at 1. now rewrite <- Hr.
    + destruct (strings.HasPrefix url "https://") eqn:H2.
      * right. apply HasPrefix_slice in H2.
        apply Hrest in Herr as (host & port & path & Hr & H).
        exists "https", host, port, path. split; [now right|]. split; [|exact H].
        rewrite H2 at 1. now rewrite <- Hr.
      * now left.
  - intros [[H1 H2] | (scheme & host & port & path & Hs & -> & H)].
    + rewrite ParseURL_no_scheme by assumption. discriminate.
    + rewrite ParseURL_scheme by assumption.
      apply Hrest. now exists host, port, path.
Qed.

(** ** The request executor *)

Section ExecutorFacts.

Variable E : Env.

Lemma truncate200_length (body : string) :
  (String.length (truncate200 body) <= 200)%nat.
Proof.
  unfold truncate200.
  destruct (Nat.ltb_spec 200 (String.length body)); [|assumption].
  apply slice_to_length.
Qed.

Lemma truncate200_slice (body : string) :
  truncate200 body = strings.slice_to 200 body.
Proof.
  unfold truncate200.
  destruct (Nat.ltb_spec 200 (String.length body)); [reflexivity|].
  symmetry. now apply slice_to_all.
Qed.

Lemma truncate200_prefix (body : string) :
  exists rest, body = truncate200 body ++ rest.
Proof.
  unfold truncate200.
  destruct (Nat.ltb 200 (String.length body)).
  - exists (strings.slice_from 200 body). apply slice_to_prefix.
  - exists "". symmetry. apply append_empty_r.
Qed.

(** Unfolds one attempt into the decision tree over what the collaborators
    return. *)
Ltac unfold_attempt :=
  unfold attempt, DoHTTP, DoHTTPWithHandler, bind, check, Marshal, NewRequest,
    Do, ReadAll, Unmarshal, invoke, emit, ret, return_, panic, defer,
    result, world, captured, events.

Ltac reduce :=
  cbn -[String.append fmt_d truncate200 Error set_headers nil_dereference
        genErrorPrefix strings.slice_to] in *.

Ltac case_step :=
  match goal with
  | |- context [String.eqb ?a ?b] => destruct (String.eqb a b) eqn:?
  | |- context [json_Marshal ?e ?v] => destruct (json_Marshal e v) eqn:?
  | |- context [http_NewRequest ?e ?m ?u ?b] =>
      destruct (http_NewRequest e m u b) eqn:?
  | |- context [client_Do ?e ?r ?n] =>
      let d := fresh "d" in destruct (client_Do e r n) as [d ?] eqn:?; destruct d
  | |- context [Body ?r] =>
      let b := fresh "body" in let e := fresh "err" in
      destruct (Body r) as [b e] eqn:?; destruct e
  | |- context [Z.eqb ?a ?b] => destruct (Z.eqb a b) eqn:?
  | |- context [json_Unmarshal ?e ?b ?o] =>
      let e' := fresh "err" in
      destruct (json_Unmarshal e b o) as [? e'] eqn:?; destruct e'
  end; reduce.

Ltac run_attempt := unfold_attempt; reduce; repeat case_step.

(** Decides membership claims about the events of one branch. *)
Ltac members :=
  repeat match goal with
    | H : False |- _ => destruct H
    | H : _ \/ _ |- _ => destruct H
    | H : @eq (event _) _ _ |- _ => first [discriminate H | injection H as ?; subst]
    end.

(** C4. In every execution of [DoHTTPWithHandler] the failure callback is
    invoked at most once.  When there is a callback: if a step of the
    attempt fails (by what the collaborators return, in the order of the
    steps), the callback is invoked exactly once, with the category and the
    error of that step, and the attempt returns; if every step succeeds, the
    callback is not invoked, the attempt runs to its end and the output
    location holds the decoded body. *)
Theorem handler_invoked_once_per_failure (H : Type) (in_ : In E) (hp : HTTPParam)
  (handler : handler_t H) (s : World E * H) :
  let x := DoHTTPWithHandler E in_ hp handler s in
  let calls := count is_handler_call (events x) in
  (calls <= 1)%nat
  /\ match handler with
     | Some f =>
         calls = (if attempt_failed (events x) then 1%nat else 0%nat)
         /\ match spec_attempt E in_ hp (fst s) with
            | Failure et err =>
                filter is_handler_call (events x) = [EvHandler et err]
                /\ result x = Return tt
                /\ captured x = f et err (snd s)
            | Success o =>
                filter is_handler_call (events x) = []
                /\ result x = Next tt
                /\ captured x = snd s
                /\ out (world x) = o
            end
     | None => calls = 0%nat
     end.
Proof.
  destruct s as [w h], handler as [f|]; unfold spec_attempt; run_attempt;
    rewrite <- ?truncate200_slice;
    repeat split; try reflexivity; try congruence; try lia.
Qed.

(** C7. When the method is [GET], an attempt never calls the encoder,
    whatever the input value is, and builds its one request with no body;
    for every other method the encoder is called on the input value first,
    before the request is built, and the request is built with a body. *)
Theorem serialization_by_method (H : Type) (in_ : In E) (hp : HTTPParam)
  (handler : handler_t H) (s : World E * H) :
  let x := DoHTTPWithHandler E in_ hp handler s in
  if String.eqb (Method hp) MethodGet then
    count is_marshal (events x) = 0%nat
    /\ exists r rest,
         events x
         = EvEnter :: EvNewRequest MethodGet (InternalServer E ++ Path hp) None r
             :: rest
         /\ forall m u b r', ~ List.In (EvNewRequest m u b r') rest
  else
    exists rest,
      events x = EvEnter :: EvMarshal in_ (json_Marshal E in_) :: rest
      /\ count is_marshal rest = 0%nat
      /\ forall m u b r, List.In (EvNewRequest m u b r) rest ->
           m = Method hp /\ u = InternalServer E ++ Path hp /\ exists inbody, b = Some inbody.
Proof.
  destruct s as [w h].
  destruct (String.eqb (Method hp) MethodGet) eqn:Hm.
  - destruct handler as [f|]; run_attempt; try congruence;
      (split; [reflexivity|]); eexists; eexists; (split; [reflexivity|]);
      intros m u b r' Hin; reduce; members.
  - destruct handler as [f|]; run_attempt; try congruence;
      eexists; (split; [reflexivity|]); (split; [reflexivity|]);
      intros m u b r' Hin; reduce; members; eauto.
Qed.

(** C5, amended. With a callback, only the deserialization step writes to
    the output location, and it runs only on a response with status 200
    whose body was read: an attempt whose callback is invoked with any other
    category than the output-deserialization failure leaves the output
    location unchanged, and so does an attempt that does not reach the
    decoder; otherwise the output location holds what the decoder left
    there, whether or not the decoder reported an error. *)
Theorem out_written_by_decoder_only (H : Type) (in_ : In E) (hp : HTTPParam)
  (f : ErrType -> error -> H -> H) (s : World E * H) :
  let x := DoHTTPWithHandler E in_ hp (Some f) s in
  (forall et err, List.In (EvHandler et err) (events x) ->
     et <> OutParameterRunMarshalFromJSONError ->
     out (world x) = out (fst s))
  /\ ((forall body err, ~ List.In (EvUnmarshal body err) (events x)) ->
      out (world x) = out (fst s))
  /\ (forall body err, List.In (EvUnmarshal body err) (events x) ->
      (out (world x), err) = json_Unmarshal E body (out (fst s))
      /\ exists req resp,
           List.In (EvDo req (DoOk resp)) (events x)
           /\ StatusCode resp = StatusOK /\ Body resp = (body, None)).
Proof.
  destruct s as [w h]. run_attempt; try congruence.
  all: split; [intros et0 e0 Hin Hne; members; congruence|].
  all: split; [intros Hno; try reflexivity; exfalso; eapply Hno; simpl; eauto 10|].
  all: intros b0 e0 Hin; members.
  all: split; [congruence|].
  all: eexists; eexists; split; [simpl; eauto 10|].
  all: split; [now apply Z.eqb_eq|assumption].
Qed.

Lemma status_not_ok {H} (in_ : In E) (hp : HTTPParam)
  (f : ErrType -> error -> H -> H) (s : World E * H)
  (req : Request E) (resp : Response) (body : string) :
  let x := DoHTTPWithHandler E in_ hp (Some f) s in
  List.In (EvDo req (DoOk resp)) (events x) ->
  Body resp = (body, None) ->
  StatusCode resp <> StatusOK ->
  filter is_handler_call (events x)
  = [EvHandler ResponseStatusCodeNotOK
       (errorString ("code: " ++ fmt_d (StatusCode resp)
                     ++ ", message: " ++ truncate200 body))]
  /\ result x = Return tt
  /\ count is_unmarshal (events x) = 0%nat
  /\ out (world x) = out (fst s).
Proof.
  destruct s as [w h]. run_attempt; try congruence.
  all: intros Hin Hbody Hcode; members; try congruence.
  all: try (apply Z.eqb_eq in Heqb0; congruence).
  all: try (apply Z.eqb_eq in Heqb1; congruence).
  all: repeat split; congruence.
Qed.

(** C9. With a [nil] handler no error check ends the attempt: no callback is
    invoked and no [return] is executed before the end of the function.
    After a serialization failure the request is still built (with an empty
    body); after a request-construction failure the next step sets headers
    on the [nil] request, a nil-pointer dereference; after a send failure
    without a response the next step dereferences the [nil] response; with
    a response in hand (also one that came with a send error, whose body
    cannot be read, or whose status is not 200) the attempt reads the body
    and decodes it into the output location. *)
Theorem nil_handler_never_returns_early (H : Type) (in_ : In E) (hp : HTTPParam) (s : World E * H) :
  let x := DoHTTPWithHandler E in_ hp (@None (ErrType -> error -> H -> H)) s in
  let evs := events x in
  count is_handler_call evs = 0%nat
  /\ result x <> Return tt
  /\ (forall v e, List.In (EvMarshal v (inr e)) evs ->
      exists r, List.In (EvNewRequest (Method hp) (InternalServer E ++ Path hp)
                           (Some "") r) evs)
  /\ (forall m u b e, List.In (EvNewRequest m u b (inr e)) evs ->
      result x = Panic nil_dereference
      /\ exists pre, evs = (pre ++ [EvNewRequest m u b (inr e)])%list)
  /\ (forall req e, List.In (EvDo req (DoErr e)) evs ->
      result x = Panic nil_dereference)
  /\ (forall req r resp, List.In (EvDo req r) evs -> do_resp r = Some resp ->
      result x = Next tt
      /\ List.In (EvReadAll (Body resp)) evs
      /\ List.In (EvUnmarshal (fst (Body resp))
                    (snd (json_Unmarshal E (fst (Body resp)) (out (fst s))))) evs
      /\ out (world x) = fst (json_Unmarshal E (fst (Body resp)) (out (fst s)))).
Proof.
  destruct s as [w h]. run_attempt; try congruence.
  all: split; [reflexivity|].
  all: split; [discriminate|].
  all: split; [intros xv xe Hin; members; eexists; simpl; eauto 10|].
  all: split; [intros xm xu xb xe Hin; members; (split; [reflexivity|]);
               first [ now exists [EvEnter]
                     | now exists [EvEnter; EvMarshal in_ (inl s)]
                     | now exists [EvEnter; EvMarshal in_ (inr e)] ]|].
  all: split; [intros xr xe Hin; members; reflexivity|].
  all: intros xr xd xresp Hin Hresp; members; try discriminate;
    injection Hresp as <-.
  all: repeat match goal with
         | Hb : Body _ = _ |- _ => rewrite Hb; cbn [fst snd]
         | Hu : json_Unmarshal _ _ _ = _ |- _ => rewrite Hu; cbn [fst snd]
         end.
  all: repeat split; simpl; auto 10.
Qed.

(** One single-attempt execution never panics, makes one attempt and does
    not sleep; when it returns no error, the decoder has stored the body
    of a response with status 200 into the output location. *)
Lemma attempt_outcome (in_ : In E) (hp : HTTPParam) (w : World E) :
  let x := attempt E in_ hp w in
  (exists e, result x = Next e)
  /\ count is_attempt (events x) = 1%nat
  /\ count is_sleep (events x) = 0%nat
  /\ (result x = Next None ->
      exists req resp body,
        List.In (EvDo req (DoOk resp)) (events x)
        /\ StatusCode resp = StatusOK /\ Body resp = (body, None)
        /\ List.In (EvUnmarshal body None) (events x)
        /\ (out (world x), None) = json_Unmarshal E body (out w)).
Proof.
  run_attempt; try congruence.
  all: split; [eexists; reflexivity|].
  all: split; [reflexivity|].
  all: split; [reflexivity|].
  all: intros Hres; try discriminate.
  all: eexists; eexists; eexists; split; [simpl; eauto 10|].
  all: split; [now apply Z.eqb_eq|].
  all: split; [eassumption|].
  all: split; [simpl; eauto 10|congruence].
Qed.

(** *** The retry loop *)

Lemma count_app (p : event E -> bool) (a b : list (event E)) :
  count p (a ++ b) = (count p a + count p b)%nat.
Proof. unfold count. now rewrite filter_app, length_app. Qed.

Lemma count_zero_filter (p : event E -> bool) (a : list (event E)) :
  count p a = 0%nat -> filter p a = [].
Proof. unfold count. now destruct (filter p a). Qed.

Lemma retry_loop_succ (n : nat) (in_ : In E) (hp : HTTPParam) (waitTime : Z)
  (err0 : option error) (w : World E) :
  retry_loop E (S n) in_ hp waitTime err0 (w, tt)
  = match attempt E in_ hp w with
    | (Next None, s', evs) => (Return None, s', evs)
    | (Next (Some e), s', evs) =>
        let '(o, s'', evs') := retry_loop E n in_ hp waitTime (Some e) s' in
        (o, s'', (evs ++ EvSleep waitTime :: evs')%list)
    | (Return r, s', evs) => (Return r, s', evs)
    | (Panic msg, s', evs) => (Panic msg, s', evs)
    end.
Proof.
  cbn [retry_loop]. unfold bind at 1. unfold attempt.
  destruct (DoHTTP E in_ hp (w, tt)) as [[[[e|]| |] s'] evs]; try reflexivity.
  - unfold bind, Sleep, emit.
    now destruct (retry_loop E n in_ hp waitTime (Some e) s') as [[o s''] evs'].
  - unfold return_. now rewrite app_nil_r.
Qed.

Section Retry.

Variables (in_ : In E) (hp : HTTPParam) (waitTime : Z).


Lemma attempt_cases (w : World E) :
  exists e w' evs,
    attempt E in_ hp w = (Next e, (w', tt), evs)
    /\ count is_attempt evs = 1%nat
    /\ filter is_sleep evs = [].
Proof.
  destruct (attempt_outcome in_ hp w) as ([e He] & Ha & Hs & _).
  destruct (attempt E in_ hp w) as [[o [w' []]] evs].
  unfold result, events in *. cbn [fst snd] in *. subst o.
  exists e, w', evs. repeat split; auto. now apply count_zero_filter.
Qed.

Lemma retry_loop_all_fail (n : nat) (w : World E) (err0 : option error) :
  (forall i, (i < n)%nat -> attempt_fails_at E i in_ hp w) ->
  let x := retry_loop E n in_ hp waitTime err0 (w, tt) in
  (n = O -> result x = Next err0)
  /\ (forall m, n = S m -> result x = result (attempt E in_ hp (world_before_attempt E m in_ hp w)))
  /\ world x = world_before_attempt E n in_ hp w
  /\ count is_attempt (events x) = n
  /\ filter is_sleep (events x) = repeat (EvSleep waitTime) n.
Proof.
  revert w err0. induction n as [|n IH]; intros w err0 Hfail.
  - cbn. repeat split; auto. intros m; discriminate.
  - destruct (Hfail O ltac:(lia)) as [e He].
    cbv zeta. rewrite retry_loop_succ.
    destruct (attempt_cases w) as (e' & w' & evs & Hatt & Hcount & Hsleep).
    cbn [world_before_attempt] in He.
    rewrite Hatt in He |- *. unfold result in He. cbn [fst] in He.
    injection He as ->.
    assert (Hw' : forall k, world_before_attempt E k in_ hp w' = world_before_attempt E (S k) in_ hp w).
    { intros k. cbn [world_before_attempt].
      rewrite Hatt. reflexivity. }
    specialize (IH w' (Some e)).
    destruct IH as (IH0 & IHS & IHw & IHa & IHs).
    { intros i Hi. unfold attempt_fails_at. rewrite Hw'. apply Hfail. lia. }
    destruct (retry_loop E n in_ hp waitTime (Some e) (w', tt))
      as [[o s''] evs'] eqn:Hloop.
    unfold result, world, events in *. cbn [fst snd] in *.
    split; [discriminate|].
    split; [|split; [|split]].
    + intros m [= <-]. destruct n as [|n'].
      * rewrite IH0 by reflexivity. cbn [world_before_attempt].
        now rewrite Hatt.
      * rewrite (IHS n' eq_refl). now rewrite Hw'.
    + now rewrite IHw, Hw'.
    + change (evs ++ EvSleep waitTime :: evs')%list
        with (evs ++ [EvSleep waitTime] ++ evs')%list.
      rewrite !count_app, Hcount, IHa. reflexivity.
    + rewrite filter_app, Hsleep. cbn. now rewrite IHs.
Qed.

Lemma retry_loop_success (k : nat) :
  forall (n : nat) (w : World E) (err0 : option error),
    (k < n)%nat ->
    (forall i, (i < k)%nat -> attempt_fails_at E i in_ hp w) ->
    result (attempt E in_ hp (world_before_attempt E k in_ hp w)) = Next None ->
    let x := retry_loop E n in_ hp waitTime err0 (w, tt) in
    result x = Return None
    /\ world x = world (attempt E in_ hp (world_before_attempt E k in_ hp w))
    /\ count is_attempt (events x) = S k
    /\ filter is_sleep (events x) = repeat (EvSleep waitTime) k
    /\ exists pre, events x = (pre ++ events (attempt E in_ hp (world_before_attempt E k in_ hp w)))%list.
Proof.
  induction k as [|k IH]; intros n w err0 Hk Hfail Hok;
    (destruct n as [|n]; [lia|]); cbv zeta; rewrite retry_loop_succ;
    destruct (attempt_cases w) as (e' & w' & evs & Hatt & Hcount & Hsleep).
  - cbn [world_before_attempt] in *.
    rewrite Hatt in Hok |- *. unfold result in Hok. cbn [fst] in Hok.
    injection Hok as ->.
    unfold result, world, events. cbn [fst snd].
    repeat split; auto. now exists [].
  - destruct (Hfail O ltac:(lia)) as [e He].
    cbn [world_before_attempt] in He.
    rewrite Hatt in He |- *. unfold result in He. cbn [fst] in He.
    injection He as ->.
    assert (Hw' : forall j, world_before_attempt E j in_ hp w' = world_before_attempt E (S j) in_ hp w).
    { intros j. cbn [world_before_attempt].
      rewrite Hatt. reflexivity. }
    specialize (IH n w' (Some e)).
    destruct IH as (IHr & IHw & IHa & IHs & pre & IHp).
    { lia. }
    { intros i Hi. unfold attempt_fails_at. rewrite Hw'. apply Hfail. lia. }
    { now rewrite Hw'. }
    destruct (retry_loop E n in_ hp waitTime (Some e) (w', tt))
      as [[o s''] evs'] eqn:Hloop.
    rewrite Hw' in IHw, IHp.
    unfold result, world, events in *. cbn [fst snd] in *.
    split; [assumption|]. split; [assumption|]. split; [|split].
    + change (evs ++ EvSleep waitTime :: evs')%list
        with (evs ++ [EvSleep waitTime] ++ evs')%list.
      rewrite !count_app, Hcount, IHa. reflexivity.
    + rewrite filter_app, Hsleep. cbn. now rewrite IHs.
    + exists (evs ++ EvSleep waitTime :: pre)%list.
      rewrite IHp, <- app_assoc. reflexivity.
Qed.

Lemma retry_loop_returns (n : nat) (w : World E) (err0 : option error) :
  let x := retry_loop E (S n) in_ hp waitTime err0 (w, tt) in
  result x = Return None \/ exists e, result x = Next (Some e).
Proof.
  revert w err0. induction n as [|n IH]; intros w err0; cbv zeta;
    rewrite retry_loop_succ;
    destruct (attempt_cases w) as (e' & w' & evs & Hatt & _); rewrite Hatt;
    destruct e' as [e|]; try (left; reflexivity).
  - right. now exists e.
  - specialize (IH w' (Some e)). cbv zeta in IH.
    destruct (retry_loop E (S n) in_ hp waitTime (Some e) (w', tt))
      as [[o s''] evs'].
    exact IH.
Qed.

Lemma DoHTTPWithRetry_bind (maxRetryTimes : Z) (w : World E) :
  DoHTTPWithRetry E in_ hp waitTime maxRetryTimes (w, tt)
  = match retry_loop E (Z.to_nat maxRetryTimes) in_ hp waitTime None (w, tt) with
    | (Next None, s', evs) => (Panic nil_dereference, s', evs)
    | (Next (Some e), s', evs) =>
        (Return (Some (errorString (exhausted_message E maxRetryTimes hp e))), s', evs)
    | (Return r, s', evs) => (Return r, s', evs)
    | (Panic msg, s', evs) => (Panic msg, s', evs)
    end.
Proof.
  unfold DoHTTPWithRetry, bind.
  destruct (retry_loop E (Z.to_nat maxRetryTimes) in_ hp waitTime None (w, tt))
    as [[[[e|]| |] s'] evs]; try reflexivity;
    unfold return_, panic; now rewrite app_nil_r.
Qed.

Lemma exhausted_message_contains (maxRetryTimes : Z) (e : error) :
  contains (exhausted_message E maxRetryTimes hp e) (fmt_d maxRetryTimes)
  /\ contains (exhausted_message E maxRetryTimes hp e) (Path hp)
  /\ contains (exhausted_message E maxRetryTimes hp e) (Error E e).
Proof.
  unfold exhausted_message, contains. split; [|split].
  - exists "request error, retry at maxtimes:",
      (", path: " ++ Path hp ++ ", err:" ++ Error E e). reflexivity.
  - exists ("request error, retry at maxtimes:" ++ fmt_d maxRetryTimes ++ ", path: "),
      (", err:" ++ Error E e).
    now rewrite <- !append_assoc3.
  - exists ("request error, retry at maxtimes:" ++ fmt_d maxRetryTimes
            ++ ", path: " ++ Path hp ++ ", err:"), "".
    now rewrite append_empty_r, <- !append_assoc3.
Qed.

(** When each of the first [n] attempts fails, [n >= 1], the wrapper gives
    up after [n] attempts and [n] sleeps, with the error of attempt [n]. *)
Lemma retry_exhausted (n : nat) (w : World E) :
  (forall i, (i < S n)%nat -> attempt_fails_at E i in_ hp w) ->
  let x := DoHTTPWithRetry E in_ hp waitTime (Z.of_nat (S n)) (w, tt) in
  count is_attempt (events x) = S n
  /\ filter is_sleep (events x) = repeat (EvSleep waitTime) (S n)
  /\ exists e,
       result (attempt E in_ hp (world_before_attempt E n in_ hp w)) = Next (Some e)
       /\ result x
          = Return (Some (errorString (exhausted_message E (Z.of_nat (S n)) hp e))).
Proof.
  intros Hfail. cbv zeta. rewrite DoHTTPWithRetry_bind, Nat2Z.id.
  destruct (retry_loop_all_fail (S n) w None Hfail) as (_ & Hres & _ & Ha & Hs).
  specialize (Hres n eq_refl).
  destruct (Hfail n ltac:(lia)) as [e He]. unfold attempt_fails_at in He.
  rewrite He in Hres.
  destruct (retry_loop E (S n) in_ hp waitTime None (w, tt)) as [[o s'] evs].
  unfold result, events in *. cbn [fst snd] in *. subst o.
  repeat split; auto. now exists e.
Qed.

End Retry.

End ExecutorFacts.

(** ** The claims about the executor and the retry wrapper *)

(** C1, as stated, fails: with a transport that refuses every send and at
    most 3 attempts, the wrapper makes 3 attempts and sleeps 3 times, not 2:
    it also sleeps after the last failed attempt, before it gives up. *)
Lemma retry_exhaustion_sleeps_thrice :
  let E := Stub.env None Stub.ok_response in
  let x := DoHTTPWithRetry E (Some "x") Stub.post 1000 3 (Stub.world0 None Stub.ok_response, tt) in
  (forall w, exists e, result (attempt E (Some "x") Stub.post w) = Next (Some e))
  /\ count is_attempt (events x) = 3%nat
  /\ count is_sleep (events x) = 3%nat
  /\ count is_sleep (events x) <> 2%nat.
Proof.
  cbv zeta. split; [|split; [|split]].
  - intros w. eexists. reflexivity.
  - reflexivity.
  - reflexivity.
  - discriminate.
Qed.

(** C1, amended. When each of three attempts fails, [DoHTTPWithRetry] with
    [maxRetryTimes = 3] makes exactly 3 attempts, sleeps exactly 3 times for
    [waitTime] (once after every failed attempt, the last one included), and
    returns the error [request error, retry at maxtimes:3, path: <Path>,
    err:<e>], where [e] is the error of the third attempt: its text contains
    [3], the request path and the text of that error. *)
Theorem retry_exhaustion (E : Env) (in_ : In E) (hp : HTTPParam) (waitTime : Z)
  (w : World E) :
  (forall i, (i < 3)%nat -> attempt_fails_at E i in_ hp w) ->
  let x := DoHTTPWithRetry E in_ hp waitTime 3 (w, tt) in
  count is_attempt (events x) = 3%nat
  /\ filter is_sleep (events x) = [EvSleep waitTime; EvSleep waitTime; EvSleep waitTime]
  /\ exists e,
       result (attempt E in_ hp (world_before_attempt E 2 in_ hp w)) = Next (Some e)
       /\ result x = Return (Some (errorString (exhausted_message E 3 hp e)))
       /\ contains (exhausted_message E 3 hp e) "3"
       /\ contains (exhausted_message E 3 hp e) (Path hp)
       /\ contains (exhausted_message E 3 hp e) (Error E e).
Proof.
  intros Hfail.
  destruct (retry_exhausted E in_ hp waitTime 2 w Hfail) as (Ha & Hs & e & He & Hr).
  cbv zeta. change (Z.of_nat 3) with 3 in *.
  split; [exact Ha|]. split; [exact Hs|].
  exists e. split; [exact He|]. split; [exact Hr|].
  exact (exhausted_message_contains E hp 3 e).
Qed.

Lemma retry_exhaustion_witness :
  let E := Stub.env None Stub.ok_response in
  let x := DoHTTPWithRetry E (Some "x") Stub.post 1000 3 (Stub.world0 None Stub.ok_response, tt) in
  count is_attempt (events x) = 3%nat
  /\ filter is_sleep (events x) = [EvSleep 1000; EvSleep 1000; EvSleep 1000]
  /\ exists e,
       result (attempt E (Some "x") Stub.post
                 (world_before_attempt E 2 (Some "x") Stub.post
                    (Stub.world0 None Stub.ok_response))) = Next (Some e)
       /\ result x = Return (Some (errorString (exhausted_message E 3 Stub.post e)))
       /\ contains (exhausted_message E 3 Stub.post e) "3"
       /\ contains (exhausted_message E 3 Stub.post e) (Path Stub.post)
       /\ contains (exhausted_message E 3 Stub.post e) (Error E e).
Proof.
  apply (retry_exhaustion (Stub.env None Stub.ok_response) (Some "x") Stub.post 1000
           (Stub.world0 None Stub.ok_response)).
  intros i Hi. eexists. reflexivity.
Defined.


(** C5, as stated, fails.  With a callback: the decoder stores the first
    cell of ["[1,true]"], then reports the mismatch; the attempt fails with
    an output-deserialization failure and the output location has changed.
    Without a callback: the response has status 500, the attempt goes on
    and stores its body in the output location. *)
Lemma out_changed_by_failing_attempt :
  let w0 := Stub.world0 (Some O) Stub.mismatch_response in
  let x := DoHTTPWithHandler (Stub.env (Some O) Stub.mismatch_response)
             (Some "x") Stub.post Stub.counting (w0, O) in
  let w1 := Stub.world0 (Some O) Stub.error_response in
  let y := DoHTTPWithHandler (Stub.env (Some O) Stub.error_response)
             (Some "x") Stub.post (@None (ErrType -> error -> nat -> nat)) (w1, O) in
  (attempt_failed (events x) = true
   /\ filter is_handler_call (events x)
      = [EvHandler OutParameterRunMarshalFromJSONError
           (errorString "json: cannot unmarshal bool into Go value of type int, body:[1,true]")]
   /\ out w0 = (0, 0) /\ out (world x) = (1, 0))
  /\ (attempt_failed (events y) = true
      /\ out w1 = (0, 0) /\ out (world y) = (7, 8)).
Proof. cbv zeta. repeat split. Qed.


Lemma out_written_by_decoder_only_witness :
  let E := Stub.env (Some O) Stub.error_response in
  let w0 := Stub.world0 (Some O) Stub.error_response in
  let x := DoHTTPWithHandler E (Some "x") Stub.post Stub.counting (w0, O) in
  out (world x) = out w0.
Proof.
  cbv zeta.
  apply (proj1 (out_written_by_decoder_only (Stub.env (Some O) Stub.error_response)
                  nat (Some "x") Stub.post (fun _ _ n => S n)
                  (Stub.world0 (Some O) Stub.error_response, O))
           ResponseStatusCodeNotOK (errorString "code: 500, message: [7,8]")).
  - simpl. do 5 right. left. reflexivity.
  - discriminate.
Defined.

(** C6. When the first [k - 1] attempts fail and attempt [k] succeeds, with
    [1 <= k <= maxRetryTimes], [DoHTTPWithRetry] returns [nil] right after
    attempt [k]: it has made [k] attempts and slept [k - 1] times for
    [waitTime], its last events are those of attempt [k], and the output
    location holds what the decoder made of the body of the response that
    attempt [k] received. *)
Theorem retry_succeeds_at (E : Env) (in_ : In E) (hp : HTTPParam)
  (waitTime maxRetryTimes : Z) (w : World E) (k : nat) :
  (1 <= k)%nat -> Z.of_nat k <= maxRetryTimes ->
  (forall i, (i < k - 1)%nat -> attempt_fails_at E i in_ hp w) ->
  attempt_succeeds_at E (k - 1) in_ hp w ->
  let x := DoHTTPWithRetry E in_ hp waitTime maxRetryTimes (w, tt) in
  let wk := world_before_attempt E (k - 1) in_ hp w in
  let last := attempt E in_ hp wk in
  result x = Return None
  /\ count is_attempt (events x) = k
  /\ filter is_sleep (events x) = repeat (EvSleep waitTime) (k - 1)
  /\ (exists pre, events x = (pre ++ events last)%list)
  /\ world x = world last
  /\ exists req resp body,
       List.In (EvDo req (DoOk resp)) (events last)
       /\ StatusCode resp = StatusOK /\ Body resp = (body, None)
       /\ List.In (EvUnmarshal body None) (events last)
       /\ (out (world x), None) = json_Unmarshal E body (out wk).
Proof.
  intros Hk Hmax Hfail Hok. cbv zeta.
  rewrite DoHTTPWithRetry_bind.
  destruct (retry_loop_success E in_ hp waitTime (k - 1) (Z.to_nat maxRetryTimes)
              w None ltac:(lia) Hfail Hok) as (Hr & Hw & Ha & Hs & Hp).
  destruct (attempt_outcome E in_ hp (world_before_attempt E (k - 1) in_ hp w))
    as (_ & _ & _ & Hdec).
  specialize (Hdec Hok).
  destruct (retry_loop E (Z.to_nat maxRetryTimes) in_ hp waitTime None (w, tt))
    as [[o s'] evs].
  unfold result, world, events in Hr, Hw, Ha, Hs, Hp. cbn [fst snd] in Hr, Hw, Ha, Hs, Hp.
  subst o. unfold result at 1. unfold world at 1 3. unfold events at 1 2 3.
  cbn [fst snd].
  split; [reflexivity|]. split; [rewrite Ha; lia|]. split; [exact Hs|].
  split; [exact Hp|]. split; [exact Hw|].
  rewrite Hw. exact Hdec.
Qed.

Lemma retry_succeeds_at_witness :
  let E := Stub.env (Some 2%nat) Stub.ok_response in
  let x := DoHTTPWithRetry E (Some "x") Stub.post 1000 5
             (Stub.world0 (Some 2%nat) Stub.ok_response, tt) in
  result x = Return None
  /\ count is_attempt (events x) = 3%nat
  /\ filter is_sleep (events x) = [EvSleep 1000; EvSleep 1000]
  /\ out (world x) = (7, 8).
Proof.
  cbv zeta.
  destruct (retry_succeeds_at (Stub.env (Some 2%nat) Stub.ok_response) (Some "x")
              Stub.post 1000 5 (Stub.world0 (Some 2%nat) Stub.ok_response) 3)
    as (Hr & Ha & Hs & _ & _ & _).
  - lia.
  - lia.
  - intros i Hi. destruct i as [|[|i]].
    + eexists. reflexivity.
    + eexists. reflexivity.
    + simpl in Hi. lia.
  - reflexivity.
  - split; [exact Hr|]. split; [exact Ha|]. split; [exact Hs|]. reflexivity.
Defined.


(** On the stub, a [GET] with an input the encoder rejects succeeds. *)
Example get_ignores_unserializable_input :
  let x := DoHTTPWithHandler (Stub.env (Some O) Stub.ok_response) None Stub.get
             Stub.counting (Stub.world0 (Some O) Stub.ok_response, O) in
  result x = Next tt /\ captured x = O /\ out (world x) = (7, 8)
  /\ count is_marshal (events x) = 0%nat.
Proof. cbv zeta. repeat split. Qed.

(** C8. When the transport returns a response whose status is not 200 and
    whose body is read, the callback is invoked once, with the category
    [ResponseStatusCodeNotOK] and an error whose text is [code: ] and the
    status code, then [, message: ] and the body cut to its first 200
    bytes (the whole body when it has no more than 200); the attempt
    returns there: the decoder is not called and the output location is
    unchanged. *)
Theorem status_not_ok_reported (E : Env) (H : Type) (in_ : In E) (hp : HTTPParam)
  (f : ErrType -> error -> H -> H) (s : World E * H)
  (req : Request E) (resp : Response) (body : string) :
  let x := DoHTTPWithHandler E in_ hp (Some f) s in
  List.In (EvDo req (DoOk resp)) (events x) ->
  Body resp = (body, None) ->
  StatusCode resp <> StatusOK ->
  exists context,
    filter is_handler_call (events x)
    = [EvHandler ResponseStatusCodeNotOK
         (errorString ("code: " ++ fmt_d (StatusCode resp)
                       ++ ", message: " ++ context))]
    /\ context = strings.slice_to 200 body
    /\ String.length context = Nat.min 200 (String.length body)
    /\ (exists rest, body = context ++ rest)
    /\ result x = Return tt
    /\ count is_unmarshal (events x) = 0%nat
    /\ out (world x) = out (fst s).
Proof.
  intros x Hin Hbody Hcode.
  destruct (status_not_ok E in_ hp f s req resp body Hin Hbody Hcode)
    as (Hcall & Hres & Hdec & Hout).
  exists (strings.slice_to 200 body).
  split; [now rewrite <- truncate200_slice|]. split; [reflexivity|].
  split; [apply slice_to_length_min|].
  split; [exists (strings.slice_from 200 body); apply slice_to_prefix|].
  now repeat split.
Qed.

Lemma status_not_ok_reported_witness :
  (let E := Stub.env (Some O) Stub.error_response in
   let w0 := Stub.world0 (Some O) Stub.error_response in
   let x := DoHTTPWithHandler E (Some "x") Stub.post Stub.counting (w0, O) in
   filter is_handler_call (events x)
   = [EvHandler ResponseStatusCodeNotOK (errorString "code: 500, message: [7,8]")]
   /\ result x = Return tt
   /\ count is_unmarshal (events x) = 0%nat
   /\ out (world x) = out w0)
  /\ (let E := Stub.env (Some O) long_error_response in
      let w0 := Stub.world0 (Some O) long_error_response in
      let x := DoHTTPWithHandler E (Some "x") Stub.post Stub.counting (w0, O) in
      filter is_handler_call (events x)
      = [EvHandler ResponseStatusCodeNotOK
           (errorString
              ("code: 503, message: "
               ++ "0123456789012345678901234567890123456789012345678901234567890123456789"
               ++ "0123456789012345678901234567890123456789012345678901234567890123456789"
               ++ "012345678901234567890123456789012345678901234567890123456789"))]
      /\ result x = Return tt
      /\ count is_unmarshal (events x) = 0%nat
      /\ out (world x) = out w0).
Proof.
  cbv zeta. split.
  - destruct (status_not_ok_reported (Stub.env (Some O) Stub.error_response) nat
                (Some "x") Stub.post (fun _ _ n => S n)
                (Stub.world0 (Some O) Stub.error_response, O)
                (set_headers (Stub.env (Some O) Stub.error_response) Stub.post
                   {| Stub.r_method := "POST";
                      Stub.r_url := "http://127.0.0.1:80/api/v1/register";
                      Stub.r_body := Some "x"; Stub.r_header := [] |})
                Stub.error_response "[7,8]")
      as (context & Hcall & Hctx & _ & _ & Hres & Hdec & Hout).
    + simpl. do 3 right. left. reflexivity.
    + reflexivity.
    + discriminate.
    + rewrite Hctx in Hcall. split; [exact Hcall|].
      split; [exact Hres|]. split; [exact Hdec|exact Hout].
  - destruct (status_not_ok_reported (Stub.env (Some O) long_error_response) nat
                (Some "x") Stub.post (fun _ _ n => S n)
                (Stub.world0 (Some O) long_error_response, O)
                (set_headers (Stub.env (Some O) long_error_response) Stub.post
                   {| Stub.r_method := "POST";
                      Stub.r_url := "http://127.0.0.1:80/api/v1/register";
                      Stub.r_body := Some "x"; Stub.r_header := [] |})
                long_error_response long_body)
      as (context & Hcall & Hctx & _ & _ & Hres & Hdec & Hout).
    + simpl. do 3 right. left. reflexivity.
    + reflexivity.
    + discriminate.
    + rewrite Hctx in Hcall. split; [exact Hcall|].
      split; [exact Hres|]. split; [exact Hdec|exact Hout].
Defined.

(** The callback on the stub: once, with the status, for a response with
    status 500; not at all for a response with status 200 that decodes. *)
Lemma handler_invoked_once_per_failure_witness :
  (let E := Stub.env (Some O) Stub.error_response in
   let x := DoHTTPWithHandler E (Some "x") Stub.post Stub.counting
              (Stub.world0 (Some O) Stub.error_response, O) in
   filter is_handler_call (events x)
   = [EvHandler ResponseStatusCodeNotOK (errorString "code: 500, message: [7,8]")]
   /\ result x = Return tt /\ captured x = 1%nat)
  /\ (let E := Stub.env (Some O) Stub.ok_response in
      let x := DoHTTPWithHandler E (Some "x") Stub.post Stub.counting
                 (Stub.world0 (Some O) Stub.ok_response, O) in
      filter is_handler_call (events x) = []
      /\ result x = Next tt /\ captured x = O /\ out (world x) = (7, 8)).
Proof.
  cbv zeta. split.
  - exact (proj2 (proj2 (handler_invoked_once_per_failure
                           (Stub.env (Some O) Stub.error_response) nat (Some "x")
                           Stub.post (Some (fun _ _ n => S n))
                           (Stub.world0 (Some O) Stub.error_response, O)))).
  - exact (proj2 (proj2 (handler_invoked_once_per_failure
                           (Stub.env (Some O) Stub.ok_response) nat (Some "x")
                           Stub.post (Some (fun _ _ n => S n))
                           (Stub.world0 (Some O) Stub.ok_response, O)))).
Defined.

Lemma nil_handler_never_returns_early_witness :
  let E := Stub.env (Some O) Stub.error_response in
  let w0 := Stub.world0 (Some O) Stub.error_response in
  let nil := @None (ErrType -> error -> nat -> nat) in
  let bad := DoHTTPWithHandler E (Some "x") Stub.bad nil (w0, O) in
  let x := DoHTTPWithHandler E (Some "x") Stub.post nil (w0, O) in
  result bad = Panic nil_dereference
  /\ result x = Next tt /\ out (world x) = (7, 8).
Proof.
  cbv zeta. split.
  - refine (proj1 (proj1 (proj2 (proj2 (proj2
      (nil_handler_never_returns_early (Stub.env (Some O) Stub.error_response) nat
         (Some "x") Stub.bad (Stub.world0 (Some O) Stub.error_response, O)))))
      "BAD METHOD" _ (Some "x") (errorString "net/http: invalid method") _)).
    simpl. do 2 right. left. reflexivity.
  - refine ((fun p => conj (proj1 p) (proj2 (proj2 (proj2 p))))
      (proj2 (proj2 (proj2 (proj2 (proj2
      (nil_handler_never_returns_early (Stub.env (Some O) Stub.error_response) nat
         (Some "x") Stub.post (Stub.world0 (Some O) Stub.error_response, O))))))
      _ (DoOk Stub.error_response) Stub.error_response _ eq_refl)).
    simpl. do 3 right. left. reflexivity.
Defined.

(** C10. [DoHTTPWithRetry] needs [maxRetryTimes >= 1]: with
    [maxRetryTimes <= 0] it makes no attempt and does not sleep, and then
    panics on [err.Error()], the variable [err] being still [nil]; with
    [maxRetryTimes >= 1] it returns. *)
Theorem retry_needs_positive_count (E : Env) (in_ : In E) (hp : HTTPParam)
  (waitTime maxRetryTimes : Z) (w : World E) :
  let x := DoHTTPWithRetry E in_ hp waitTime maxRetryTimes (w, tt) in
  (maxRetryTimes <= 0 ->
     result x = Panic nil_dereference /\ events x = [] /\ world x = w)
  /\ (1 <= maxRetryTimes -> exists r, result x = Return r).
Proof.
  cbv zeta. rewrite DoHTTPWithRetry_bind. split.
  - intros Hle. replace (Z.to_nat maxRetryTimes) with O by lia.
    cbn. repeat split.
  - intros Hge. destruct (Z.to_nat maxRetryTimes) as [|n] eqn:Hn; [lia|].
    pose proof (retry_loop_returns E in_ hp waitTime n w None) as Hres.
    cbv zeta in Hres.
    destruct (retry_loop E (S n) in_ hp waitTime None (w, tt)) as [[o s'] evs].
    unfold result in *. cbn [fst] in *.
    destruct Hres as [-> | [e ->]]; eexists; reflexivity.
Qed.

Lemma retry_needs_positive_count_witness :
  let E := Stub.env None Stub.ok_response in
  let w0 := Stub.world0 None Stub.ok_response in
  (let x := DoHTTPWithRetry E (Some "x") Stub.post 1000 0 (w0, tt) in
   result x = Panic nil_dereference /\ events x = [] /\ world x = w0)
  /\ (let x := DoHTTPWithRetry E (Some "x") Stub.post 1000 1 (w0, tt) in
      exists r, result x = Return r).
Proof.
  cbv zeta. split.
  - apply (proj1 (retry_needs_positive_count (Stub.env None Stub.ok_response)
                    (Some "x") Stub.post 1000 0 (Stub.world0 None Stub.ok_response))).
    lia.
  - apply (proj2 (retry_needs_positive_count (Stub.env None Stub.ok_response)
                    (Some "x") Stub.post 1000 1 (Stub.world0 None Stub.ok_response))).
    lia.
Defined.

(** * Further properties *)

(** ** [strconv.Atoi], as [ParseURL] uses it *)

Section AtoiValues.

Import strconv.

Lemma Atoi_signed (c : ascii) (digits : string) :
  is_sign c = true -> digits <> "" -> all_digits digits = true ->
  (if Ascii.eqb c "-" then decimal digits <= 2 ^ 63 else decimal digits < 2 ^ 63) ->
  Atoi (String c digits)
  = ((if Ascii.eqb c "-" then - decimal digits else decimal digits), None).
Proof.
  intros Hsign Hne Hd Hrange. unfold Atoi.
  destruct (Nat.ltb 0 (String.length (String c digits))
            && Nat.ltb (String.length (String c digits)) 19)%bool.
  - rewrite Hsign. destruct digits as [|d ds]; [congruence|].
    cbn [String.length Nat.ltb Nat.leb andb].
    rewrite (atoi_loop_digits _ 0 Hd). reflexivity.
  - unfold ParseInt, ParseUint. rewrite Hsign.
    destruct digits as [|d ds]; [congruence|].
    assert (Hle : decimal (String d ds) <= 2 ^ 63)
      by (destruct (Ascii.eqb c "-"); lia).
    rewrite (parseUint_loop_digits _ _ 0 Hd ltac:(lia) (all_digits_max _ Hd Hle)).
    fold (decimal (String d ds)).
    change (2 ^ 63) with 9223372036854775808 in *.
    destruct (Ascii.eqb c "-"); cbn [negb andb].
    + destruct (Z.gtb_spec (decimal (String d ds)) 9223372036854775808); [lia|].
      reflexivity.
    + destruct (Z.geb_spec (decimal (String d ds)) 9223372036854775808); [lia|].
      reflexivity.
Qed.

Lemma Atoi_value (sign digits : string) :
  (sign = "" \/ sign = "+" \/ sign = "-") -> digits <> "" ->
  all_digits digits = true ->
  (if String.eqb sign "-" then decimal digits <= 2 ^ 63 else decimal digits < 2 ^ 63) ->
  Atoi (sign ++ digits) = (int_value sign digits, None).
Proof.
  intros [-> | [-> | ->]] Hne Hd Hrange; unfold int_value;
    cbn [String.append String.eqb Ascii.eqb Bool.eqb] in *.
  - now apply Atoi_digits.
  - now rewrite (Atoi_signed "+" digits).
  - now rewrite (Atoi_signed "-" digits).
Qed.

(** What [ParseInt] returns with an error. *)
Lemma ParseInt_error (s : string) (v : Z) (e : error) :
  ParseInt s = (v, Some e) ->
  (e = syntaxError "ParseInt" s /\ v = 0)
  \/ (e = rangeError "ParseInt" s /\ (v = 2 ^ 63 - 1 \/ v = - 2 ^ 63)).
Proof.
  unfold ParseInt. destruct s as [|c rest]; [intros [= <- <-]; now left|].
  set (s1 := if is_sign c then rest else String c rest).
  unfold ParseUint. destruct s1 as [|d ds]; [intros [= <- <-]; now left|].
  destruct (parseUint_loop (String d ds) (String d ds) 0) as [un err] eqn:Hl.
  apply parseUint_loop_inv in Hl; [|lia].
  destruct err as [e'|].
  - destruct Hl as [-> | [-> ->]]; [intros [= <- <-]; now left|].
    unfold rangeError at 1, ErrRange at 1.
    destruct (negb (Ascii.eqb c "-") && (maxUint64 >=? 2 ^ 63))%bool;
      [intros [= <- <-]; right; auto|].
    destruct (Ascii.eqb c "-" && (maxUint64 >? 2 ^ 63))%bool;
      [intros [= <- <-]; right; auto|].
    discriminate.
  - destruct (negb (Ascii.eqb c "-") && (un >=? 2 ^ 63))%bool;
      [intros [= <- <-]; right; auto|].
    destruct (Ascii.eqb c "-" && (un >? 2 ^ 63))%bool;
      [intros [= <- <-]; right; auto|].
    discriminate.
Qed.

(** What [Atoi] returns with an error: a [NumError] that names [Atoi] and
    the text, with the value 0 for a syntax error and the nearest bound of
    [int] for a range error. *)
Lemma Atoi_error (s : string) (v : Z) (e : error) :
  Atoi s = (v, Some e) ->
  (e = NumError "Atoi" s ErrSyntax /\ v = 0)
  \/ (e = NumError "Atoi" s ErrRange /\ (v = 2 ^ 63 - 1 \/ v = - 2 ^ 63)).
Proof.
  unfold Atoi.
  destruct (Nat.ltb 0 (String.length s) && Nat.ltb (String.length s) 19)%bool.
  - destruct s as [|c rest]; [intros [= <- <-]; now left|].
    destruct (is_sign c && Nat.ltb (String.length (if is_sign c then rest else String c rest)) 1)%bool;
      [intros [= <- <-]; now left|].
    destruct (atoi_loop (if is_sign c then rest else String c rest) 0);
      [discriminate|intros [= <- <-]; now left].
  - destruct (ParseInt s) as [i64 err] eqn:Hp.
    destruct err as [e'|]; [|discriminate].
    apply ParseInt_error in Hp as [[-> ->] | [-> Hv]]; intros [= <- <-]; auto.
Qed.

End AtoiValues.

(** ** [ParseURL]: what it returns on any input *)

Section ParseURLShape.

Import strings.

Lemma genSplit_head (sep : ascii) (n : nat) (s : string) :
  n = Count sep s ->
  exists rest, s = nth 0 (genSplit n sep s) "" ++ rest
               /\ Count sep (nth 0 (genSplit n sep s) "") = O
               /\ (rest = "" \/ exists r, rest = String sep r)
               /\ Count sep rest = n.
Proof.
  intros Hn. destruct n as [|n]; cbn [genSplit].
  - exists "". cbn [nth]. rewrite append_empty_r. repeat split; auto.
  - destruct (cut sep s) as [[a b]|] eqn:Hc.
    + apply cut_Some in Hc as [-> Ha]. exists (String sep b). cbn [nth].
      repeat split; auto.
      * right. now exists b.
      * rewrite Count_app, Ha in Hn. now rewrite Hn.
    + apply cut_None in Hc. congruence.
Qed.

(** The host-port segment and the path, as [ParseURL] cuts them. *)
Lemma ParseURL_rest_shape (protocol hostPort : string) :
  exists host mid tail,
    hostPort = host ++ mid ++ tail
    /\ Count ":" host = O /\ Count "/" host = O /\ Count "/" mid = O
    /\ (mid = "" \/ exists r, mid = String ":" r)
    /\ (tail = "" \/ exists q, tail = String "/" q)
    /\ exists port err,
         ParseURL_rest protocol hostPort = (protocol, host, uint32 port, tail, err)
         /\ (Count ":" mid <> 1%nat -> port = default_port protocol /\ err = None)
         /\ (forall r, mid = String ":" r -> Count ":" r = O ->
               (port, err) = strconv.Atoi r).
Proof.
  assert (Hseg : exists hp tail,
    hostPort = hp ++ tail /\ Count "/" hp = O
    /\ (tail = "" \/ exists q, tail = String "/" q)
    /\ nth 0 (SplitN hostPort "/" 2) "" = hp
    /\ (if Nat.ltb 1 (List.length (SplitN hostPort "/" 2))
        then "/" ++ nth 1 (SplitN hostPort "/" 2) "" else "") = tail).
  { unfold SplitN. cbn [Nat.sub genSplit].
    destruct (cut "/" hostPort) as [[a b]|] eqn:Hc.
    - apply cut_Some in Hc as [-> Ha]. exists a, (String "/" b).
      repeat split; auto. right. now exists b.
    - apply cut_None in Hc. exists hostPort, "".
      rewrite append_empty_r. repeat split; auto. }
  destruct Hseg as (hp & tail & -> & Hslash & Htail & Hhp & Hpath).
  destruct (genSplit_head ":" (Count ":" hp) hp eq_refl)
    as (mid & Hsplit & Hhost & Hmid & Hcount).
  fold (Split hp ":") in Hsplit, Hhost.
  set (host := nth 0 (Split hp ":") "") in *.
  assert (Hs : Count "/" host = O /\ Count "/" mid = O).
  { rewrite Hsplit, Count_app in Hslash. lia. }
  exists host, mid, tail.
  split; [rewrite Hsplit at 1; now rewrite <- append_assoc3|].
  split; [assumption|]. split; [apply Hs|]. split; [apply Hs|].
  split; [assumption|]. split; [assumption|].
  unfold ParseURL_rest. rewrite Hhp, Hpath. fold host.
  assert (Hlen : List.length (Split hp ":") = S (Count ":" mid)).
  { unfold Split. rewrite genSplit_length. now rewrite Hcount. }
  rewrite Hlen.
  destruct (Nat.eqb_spec (S (Count ":" mid)) 2) as [Hone|Hmany].
  - assert (Hfields : forall r, mid = String ":" r -> nth 1 (Split hp ":") "" = r).
    { intros r ->. rewrite Hsplit in Hlen |- *.
      cbn [Count] in Hone. rewrite Ascii.eqb_refl in Hone.
      unfold host in Hhost. rewrite Split_two; auto. lia. }
    destruct Hmid as [-> | [r Hr]]; [discriminate|].
    rewrite (Hfields r Hr).
    destruct (strconv.Atoi r) as [port [e|]] eqn:Ha.
    + exists port, (Some e). split; [reflexivity|]. split; [lia|].
      intros r' Hr' _. rewrite Hr in Hr'. injection Hr' as <-. now rewrite Ha.
    + exists port, None. split; [reflexivity|]. split; [lia|].
      intros r' Hr' _. rewrite Hr in Hr'. injection Hr' as <-. now rewrite Ha.
  - exists (default_port protocol), None. split; [reflexivity|].
    split; [auto|].
    intros r -> Hr. cbn [Count] in Hmany. rewrite Ascii.eqb_refl, Hr in Hmany.
    now contradiction Hmany.
Qed.

Lemma uint32_range (x : Z) : 0 <= uint32 x < 2 ^ 32.
Proof. unfold uint32. apply Z.mod_pos_bound. reflexivity. Qed.

Lemma ParseURL_cases (url : string) :
  (HasPrefix url "http://" = false /\ HasPrefix url "https://" = false)
  \/ exists protocol rest,
       (protocol = "http" \/ protocol = "https")
       /\ url = protocol ++ "://" ++ rest
       /\ ParseURL url = ParseURL_rest protocol rest.
Proof.
  unfold ParseURL.
  destruct (HasPrefix url "http://") eqn:H1.
  - right. exists "http", (slice_from 7 url). split; [now left|].
    split; [|reflexivity]. now apply HasPrefix_slice in H1.
  - destruct (HasPrefix url "https://") eqn:H2.
    + right. exists "https", (slice_from 8 url). split; [now right|].
      split; [|reflexivity]. now apply HasPrefix_slice in H2.
    + now left.
Qed.

End ParseURLShape.

(** X1. Whatever the input, the results of [ParseURL] are well formed: the
    protocol is [http], [https] or (without a scheme) empty; the host
    contains no [:] and no [/]; the path is empty or starts with [/]; the
    port is a 32-bit unsigned number. *)
Theorem ParseURL_results_well_formed (url : string) :
  let '(protocol, host, port, path, _) := ParseURL url in
  (protocol = "http" \/ protocol = "https" \/ protocol = "")
  /\ strings.Count ":" host = O /\ strings.Count "/" host = O
  /\ (path = "" \/ exists q, path = String "/" q)
  /\ 0 <= port < 2 ^ 32.
Proof.
  destruct (ParseURL_cases url) as [[H1 H2] | (protocol & rest & Hp & _ & ->)].
  - rewrite ParseURL_no_scheme by assumption.
    repeat split; auto; try lia.
  - destruct (ParseURL_rest_shape protocol rest)
      as (host & mid & tail & _ & Hc & Hs & _ & _ & Htail & port & err & -> & _).
    split; [tauto|]. split; [assumption|]. split; [assumption|].
    split; [assumption|]. apply uint32_range.
Qed.

(** X2. [ParseURL] cuts the input without losing text around the port: when
    the input has a scheme, it is the returned protocol, [://], the returned
    host, a middle part that is empty or starts with [:] and holds no [/],
    and the returned path, in this order; this holds also when an error is
    returned with them. *)
Theorem ParseURL_reassembles (url : string) :
  strings.HasPrefix url "http://" = true \/ strings.HasPrefix url "https://" = true ->
  let '(protocol, host, _, path, _) := ParseURL url in
  exists mid,
    url = protocol ++ "://" ++ host ++ mid ++ path
    /\ (mid = "" \/ exists r, mid = String ":" r)
    /\ strings.Count "/" mid = O.
Proof.
  intros Hscheme.
  destruct (ParseURL_cases url) as [[H1 H2] | (protocol & rest & Hp & Hurl & ->)].
  - destruct Hscheme; congruence.
  - destruct (ParseURL_rest_shape protocol rest)
      as (host & mid & tail & Hrest & _ & _ & Hs & Hmid & _ & port & err & -> & _).
    exists mid. split; [now rewrite <- Hrest|]. now split.
Qed.

Lemma ParseURL_reassembles_witness :
  let '(protocol, host, _, path, _) := ParseURL "https://example.com:x1/a:b/c" in
  exists mid,
    "https://example.com:x1/a:b/c" = protocol ++ "://" ++ host ++ mid ++ path
    /\ (mid = "" \/ exists r, mid = String ":" r)
    /\ strings.Count "/" mid = O.
Proof.
  apply (ParseURL_reassembles "https://example.com:x1/a:b/c").
  right. reflexivity.
Defined.

Section ParseURLPorts.

Import strings.

Lemma SplitN_segment (hp path : string) :
  Count "/" hp = O -> path = "" \/ (exists q, path = String "/" q) ->
  nth 0 (SplitN (hp ++ path) "/" 2) "" = hp
  /\ (if Nat.ltb 1 (List.length (SplitN (hp ++ path) "/" 2))
      then "/" ++ nth 1 (SplitN (hp ++ path) "/" 2) "" else "") = path.
Proof.
  intros Hc [-> | [q ->]].
  - rewrite append_empty_r, SplitN_two_absent by assumption. now split.
  - rewrite SplitN_two_first by assumption. now split.
Qed.

Lemma Count_colon_segment (sep : ascii) (host rest : string) :
  Count sep host = O -> Count sep rest = O -> Ascii.eqb ":" sep = false ->
  Count sep (host ++ String ":" rest) = O.
Proof.
  intros Hh Hr Hsep. rewrite Count_app, Hh. cbn [Count]. now rewrite Hsep, Hr.
Qed.

End ParseURLPorts.

(** X3. A host-port segment with two or more [:] is not rejected: the host
    is the text before the first [:], the port is the default of the scheme
    (80 for [http], 443 for [https]) and the text between the first [:] and
    the path is dropped, with no error. *)
Theorem ParseURL_many_colons (scheme host rest path : string) :
  scheme = "http" \/ scheme = "https" ->
  host_ok host ->
  (1 <= strings.Count ":" rest)%nat -> strings.Count "/" rest = O ->
  path = "" \/ (exists q, path = String "/" q) ->
  ParseURL (scheme ++ "://" ++ host ++ String ":" rest ++ path)
  = (scheme, host, default_port scheme, path, None).
Proof.
  intros Hs [Hc Hsl] Hcolons Hslash Hpath.
  rewrite ParseURL_scheme by assumption. unfold ParseURL_rest.
  change (String ":" rest ++ path) with ((String ":" rest) ++ path).
  rewrite append_assoc3.
  destruct (SplitN_segment (host ++ String ":" rest) path) as [-> ->];
    [now apply Count_colon_segment | assumption |].
  assert (Hlen : List.length (strings.Split (host ++ String ":" rest) ":")
                 = S (S (strings.Count ":" rest))).
  { unfold strings.Split. rewrite genSplit_length, Count_app, Hc.
    cbn [strings.Count]. now rewrite Ascii.eqb_refl. }
  assert (Hhost : nth 0 (strings.Split (host ++ String ":" rest) ":") "" = host).
  { unfold strings.Split. rewrite Count_app, Hc. cbn [strings.Count].
    rewrite Ascii.eqb_refl. cbn [Nat.add strings.genSplit].
    now rewrite cut_first. }
  rewrite Hlen, Hhost.
  destruct (strings.Count ":" rest) as [|n]; [lia|]. cbn [Nat.eqb].
  unfold default_port, uint32. now destruct Hs as [-> | ->].
Qed.

Lemma ParseURL_many_colons_witness :
  ParseURL "http://[::1]:8080/x" = ("http", "[", 80, "/x", None).
Proof.
  apply (ParseURL_many_colons "http" "[" ":1]:8080" "/x").
  - left. reflexivity.
  - split; reflexivity.
  - simpl. lia.
  - reflexivity.
  - right. exists "x". reflexivity.
Defined.

(** X4. A port written with a sign, or denoting a number of 2^32 or more,
    is accepted as long as it fits an [int]: the result is that number
    reduced modulo 2^32, with no error.  So [-1] gives 4294967295 and
    [4294967376] gives 80. *)
Theorem ParseURL_port_wraps (scheme host sign digits : string) (path : option string) :
  scheme = "http" \/ scheme = "https" ->
  host_ok host ->
  sign = "" \/ sign = "+" \/ sign = "-" ->
  digits <> "" -> all_digits digits = true ->
  (if String.eqb sign "-" then decimal digits <= 2 ^ 63 else decimal digits < 2 ^ 63) ->
  ParseURL (url_of scheme host (Some (sign ++ digits)) path)
  = (scheme, host, int_value sign digits mod 2 ^ 32,
     match path with Some q => String "/" q | None => "" end, None).
Proof.
  intros Hs [Hc Hsl] Hsign Hne Hd Hrange. unfold url_of.
  rewrite ParseURL_scheme by assumption. unfold ParseURL_rest.
  assert (Hport : forall sep, strconv.is_digit sep = false ->
                    Ascii.eqb "+" sep = false -> Ascii.eqb "-" sep = false ->
                    strings.Count sep (sign ++ digits) = O).
  { intros sep H1 H2 H3. rewrite Count_app, (all_digits_Count sep digits H1 Hd).
    destruct Hsign as [-> | [-> | ->]]; cbn [strings.Count]; rewrite ?H2, ?H3;
      reflexivity. }
  rewrite append_assoc3.
  destruct (SplitN_segment (host ++ String ":" (sign ++ digits))
              match path with Some q => String "/" q | None => "" end) as [-> ->].
  { apply Count_colon_segment; auto. }
  { destruct path as [q|]; [right; now exists q | now left]. }
  rewrite Split_two by auto. cbn [List.length nth Nat.eqb].
  now rewrite Atoi_value.
Qed.

Lemma ParseURL_port_wraps_witness :
  ParseURL "http://h:-1" = ("http", "h", 4294967295, "", None)
  /\ ParseURL "https://h:4294967376/p" = ("https", "h", 80, "/p", None).
Proof.
  split.
  - apply (ParseURL_port_wraps "http" "h" "-" "1" None).
    + left. reflexivity.
    + split; reflexivity.
    + right. right. reflexivity.
    + discriminate.
    + reflexivity.
    + vm_compute. discriminate.
  - apply (ParseURL_port_wraps "https" "h" "" "4294967376" (Some "p")).
    + right. reflexivity.
    + split; reflexivity.
    + left. reflexivity.
    + discriminate.
    + reflexivity.
    + vm_compute. reflexivity.
Defined.

(** X5. [ParseURL] returns two kinds of error only.  Without a scheme the
    error is [invalid host: ] followed by the input, and the other results
    are zero values.  With a scheme the error is the [NumError] of
    [strconv.Atoi] on the port text, and it comes together with the
    protocol, the host and the path; the port is then 0 after a syntax
    error, and 4294967295 or 0 after a range error. *)
Theorem ParseURL_error_kinds (url : string) (e : error) :
  snd (ParseURL url) = Some e ->
  (e = errorString ("invalid host: " ++ url)
   /\ ParseURL url = ("", "", 0, "", Some e))
  \/ exists protocol host porttext path port,
       ParseURL url = (protocol, host, port, path, Some e)
       /\ (protocol = "http" \/ protocol = "https")
       /\ url = protocol ++ "://" ++ host ++ String ":" porttext ++ path
       /\ ((e = NumError "Atoi" porttext ErrSyntax /\ port = 0)
           \/ (e = NumError "Atoi" porttext ErrRange
               /\ (port = 4294967295 \/ port = 0))).
Proof.
  intros Herr.
  destruct (ParseURL_cases url) as [[H1 H2] | (protocol & rest & Hp & Hurl & Hparse)].
  - left. rewrite ParseURL_no_scheme in Herr |- * by assumption.
    cbn [snd] in Herr. injection Herr as <-. now split.
  - right. rewrite Hparse in Herr |- *.
    destruct (ParseURL_rest_shape protocol rest)
      as (host & mid & tail & Hrest & Hc & Hs & Hms & Hmid & Htail
          & port & err & Heq & Hdef & Hone).
    rewrite Heq in Herr |- *. cbn [snd] in Herr. subst err.
    destruct (Nat.eq_dec (strings.Count ":" mid) 1) as [Hcnt|Hcnt];
      [|now destruct (Hdef Hcnt)].
    destruct Hmid as [-> | [r ->]]; [discriminate|].
    cbn [strings.Count] in Hcnt. rewrite Ascii.eqb_refl in Hcnt.
    specialize (Hone r eq_refl ltac:(lia)). symmetry in Hone.
    exists protocol, host, r, tail, (uint32 port).
    split; [reflexivity|]. split; [assumption|].
    split; [now rewrite Hurl, Hrest|].
    apply Atoi_error in Hone as [[-> ->] | [-> [-> | ->]]]; auto.
Qed.

Lemma ParseURL_error_kinds_witness :
  exists protocol host porttext path port,
    ParseURL "https://h:99999999999999999999/p"
    = (protocol, host, port, path,
       Some (NumError "Atoi" "99999999999999999999" ErrRange))
    /\ (protocol = "http" \/ protocol = "https")
    /\ "https://h:99999999999999999999/p"
       = protocol ++ "://" ++ host ++ String ":" porttext ++ path
    /\ ((NumError "Atoi" "99999999999999999999" ErrRange
         = NumError "Atoi" porttext ErrSyntax /\ port = 0)
        \/ (NumError "Atoi" "99999999999999999999" ErrRange
            = NumError "Atoi" porttext ErrRange
            /\ (port = 4294967295 \/ port = 0))).
Proof.
  destruct (ParseURL_error_kinds "https://h:99999999999999999999/p"
              (NumError "Atoi" "99999999999999999999" ErrRange) eq_refl)
    as [[H _] | H].
  - discriminate H.
  - exact H.
Defined.

(** ** The request executor: steps, categories and resources *)

Section ExecutorSteps.

Variable E : Env.

Ltac unfold_run :=
  unfold attempt, DoHTTP, DoHTTPWithHandler, bind, check, Marshal, NewRequest,
    Do, ReadAll, Unmarshal, invoke, emit, ret, return_, panic, defer,
    result, world, captured, events.

Ltac reduce_run :=
  cbn -[String.append fmt_d truncate200 Error set_headers nil_dereference
        genErrorPrefix] in *.

Ltac split_step :=
  match goal with
  | |- context [String.eqb (Method ?hp) MethodGet] =>
      destruct (String.eqb (Method hp) MethodGet) eqn:?
  | |- context [json_Marshal ?e ?v] => destruct (json_Marshal e v) eqn:?
  | |- context [http_NewRequest ?e ?m ?u ?b] =>
      destruct (http_NewRequest e m u b) eqn:?
  | |- context [client_Do ?e ?r ?n] =>
      let d := fresh "d" in destruct (client_Do e r n) as [d ?] eqn:?; destruct d
  | |- context [Body ?r] =>
      let b := fresh "body" in let e := fresh "err" in
      destruct (Body r) as [b e] eqn:?; destruct e
  | |- context [Z.eqb (StatusCode ?r) StatusOK] =>
      destruct (Z.eqb (StatusCode r) StatusOK) eqn:?
  | |- context [json_Unmarshal ?e ?b ?o] =>
      let e' := fresh "err" in
      destruct (json_Unmarshal e b o) as [? e'] eqn:?; destruct e'
  end; reduce_run.

Ltac run := unfold_run; reduce_run; repeat split_step.

Ltac pick_event :=
  repeat match goal with
    | H : False |- _ => destruct H
    | H : _ \/ _ |- _ => destruct H
    | H : @eq (event _) _ _ |- _ => first [discriminate H | injection H as ?; subst]
    end.

(** X6. With a callback, an attempt ends in one of seven ways.  Either no
    step fails, the callback is not invoked and the attempt runs to its
    end; or the callback is invoked once, the attempt returns, and the
    category names the step that failed and carries its error: the encoder's
    error, the request builder's, the transport's, the body reader's, the
    text [code: <status>, message: <body cut to 200 bytes>], or the decoder's
    error text followed by [, body:] and the body cut to 200 bytes. *)
Theorem failure_classified (H : Type) (in_ : In E) (hp : HTTPParam)
  (f : ErrType -> error -> H -> H) (s : World E * H) :
  let x := DoHTTPWithHandler E in_ hp (Some f) s in
  match filter is_handler_call (events x) with
  | [] =>
      attempt_failed (events x) = false /\ result x = Next tt
      /\ captured x = snd s
  | [EvHandler et err] =>
      attempt_failed (events x) = true /\ result x = Return tt
      /\ captured x = f et err (snd s)
      /\ match et with
         | InParameterMarshalToJSONError =>
             String.eqb (Method hp) MethodGet = false
             /\ json_Marshal E in_ = inr err
         | NewHTTPRequestError =>
             exists m b,
               List.In (EvNewRequest m (InternalServer E ++ Path hp) b (inr err))
                 (events x)
         | DoHTTPError =>
             exists req r, List.In (EvDo req r) (events x) /\ do_err r = Some err
         | IOError =>
             exists req resp body,
               List.In (EvDo req (DoOk resp)) (events x)
               /\ Body resp = (body, Some err)
         | ResponseStatusCodeNotOK =>
             exists req resp body,
               List.In (EvDo req (DoOk resp)) (events x)
               /\ Body resp = (body, None) /\ StatusCode resp <> StatusOK
               /\ err = errorString ("code: " ++ fmt_d (StatusCode resp)
                                     ++ ", message: " ++ truncate200 body)
         | OutParameterRunMarshalFromJSONError =>
             exists body e,
               List.In (EvUnmarshal body (Some e)) (events x)
               /\ err = errorString (Error E e ++ ", body:" ++ truncate200 body)
         end
  | _ => False
  end.
Proof.
  destruct s as [w h]. run; try congruence.
  all: repeat split; try reflexivity; try assumption.
  all: try (eexists; eexists; simpl; eauto 10; fail).
  all: try (eexists; eexists; split; [simpl; eauto 10|reflexivity]; fail).
  all: try (eexists; eexists; eexists; split; [simpl; eauto 10|eassumption]; fail).
  all: try (eexists; eexists; eexists; split; [simpl; eauto 10|];
            split; [eassumption|]; split; [|reflexivity];
            intros Hok; apply Z.eqb_eq in Hok; congruence).
Qed.

(** X7. The response body is closed exactly when the attempt goes on with a
    response: after a send that gave a response and no error, it is closed
    once, as the last event of the attempt, on every path (read failure,
    status other than 200, decoding failure, success); with a callback, an
    attempt whose send did not succeed closes nothing. *)
Theorem body_closed_once (H : Type) (in_ : In E) (hp : HTTPParam)
  (handler : handler_t H) (s : World E * H) :
  let x := DoHTTPWithHandler E in_ hp handler s in
  (count is_close (events x) <= 1)%nat
  /\ (forall req resp, List.In (EvDo req (DoOk resp)) (events x) ->
      count is_close (events x) = 1%nat
      /\ exists pre, events x = (pre ++ [EvClose])%list)
  /\ (handler <> None ->
      (forall req resp, ~ List.In (EvDo req (DoOk resp)) (events x)) ->
      count is_close (events x) = 0%nat).
Proof.
  destruct s as [w h], handler as [f|]; run; try congruence.
  all: split; [cbn; lia|].
  all: split; [intros xr xresp Hin; pick_event;
               (split; [reflexivity|]);
               match goal with
               | |- exists pre, ?l = _ =>
                   exists (removelast l); reflexivity
               end|].
  all: intros Hh Hno; try reflexivity; try congruence.
  all: exfalso; eapply Hno; simpl; eauto 10.
Qed.

(** X8. An attempt builds at most one request and sends at most one.  What
    it sends is the request the builder returned, with the headers set on
    it, and the network moves by that one send; an attempt that sends
    nothing leaves the network as it was. *)
Theorem one_request_one_send (H : Type) (in_ : In E) (hp : HTTPParam)
  (handler : handler_t H) (s : World E * H) :
  let x := DoHTTPWithHandler E in_ hp handler s in
  (count is_new_request (events x) <= 1)%nat
  /\ (count is_send (events x) <= 1)%nat
  /\ (forall req r, List.In (EvDo req r) (events x) ->
      (exists m b req0,
         List.In (EvNewRequest m (InternalServer E ++ Path hp) b (inl req0))
           (events x)
         /\ req = set_headers E hp req0)
      /\ client_Do E req (net (fst s)) = (r, net (world x)))
  /\ (count is_send (events x) = 0%nat -> net (world x) = net (fst s)).
Proof.
  destruct s as [w h], handler as [f|]; run; try congruence.
  all: split; [cbn; lia|].
  all: split; [cbn; lia|].
  all: split; [intros xr xd Hin; pick_event;
               (split; [eexists; eexists; eexists; split;
                        [simpl; eauto 10|reflexivity]|assumption])|].
  all: intros Hsend; try reflexivity; try discriminate Hsend.
Qed.

(** Last write wins, for a header store that keeps one value per canonical
    name. *)
Lemma fold_header_set (get : Request E -> string -> option string)
  (canon : string -> string) :
  (forall r k v k',
      get (Header_Set E r k v) k'
      = if String.eqb (canon k) (canon k') then Some v else get r k') ->
  forall (post : list (string * string)) (req : Request E) (k' : string),
    (forall kv, List.In kv post -> canon (fst kv) <> canon k') ->
    get (fold_left (fun r kv => Header_Set E r (fst kv) (snd kv)) post req) k'
    = get req k'.
Proof.
  intros Hlaw. induction post as [|[k v] post IH]; intros req k' Hpost.
  - reflexivity.
  - cbn [fold_left fst snd]. rewrite IH by (intros kv Hin; apply Hpost; now right).
    rewrite Hlaw.
    destruct (String.eqb_spec (canon k) (canon k')) as [Heq|]; [|reflexivity].
    exfalso. apply (Hpost (k, v)); [now left|exact Heq].
Qed.

(** X9. Headers are written in the order standard, then caller-supplied, so
    the last write to a name decides: for a header store that keeps one value
    per canonical name, a pair written with no later write to the same
    canonical name is what the sent request carries.  A caller's header thus
    replaces a standard one of the same name, and a standard header stays
    when no caller header has its name. *)
Theorem last_header_write_wins (get : Request E -> string -> option string)
  (canon : string -> string) (hp : HTTPParam) (req : Request E)
  (pre post : list (string * string)) (k v k' : string) :
  (forall r k v k',
      get (Header_Set E r k v) k'
      = if String.eqb (canon k) (canon k') then Some v else get r k') ->
  header_writes E hp = (pre ++ (k, v) :: post)%list ->
  (forall kv, List.In kv post -> canon (fst kv) <> canon k') ->
  canon k = canon k' ->
  get (set_headers E hp req) k' = Some v.
Proof.
  intros Hlaw Hwrites Hpost Hk.
  assert (Hfold : set_headers E hp req
                  = fold_left (fun r kv => Header_Set E r (fst kv) (snd kv))
                      (header_writes E hp) req) by reflexivity.
  rewrite Hfold, Hwrites, fold_left_app. cbn [fold_left fst snd].
  rewrite (fold_header_set get canon Hlaw post _ k' Hpost), Hlaw, Hk.
  now rewrite String.eqb_refl.
Qed.

(** *** [DoHTTP] *)

(** X10. [DoHTTP] never panics: it returns [nil] exactly when no step of the
    attempt failed, and an error exactly when one did (a collaborator
    returned an error, or the status was not 200). *)
Theorem DoHTTP_nil_iff_success (in_ : In E) (hp : HTTPParam) (w : World E) :
  let x := attempt E in_ hp w in
  match result x with
  | Next None => attempt_failed (events x) = false
  | Next (Some _) => attempt_failed (events x) = true
  | _ => False
  end.
Proof. run; try congruence; reflexivity. Qed.

(** X11. Every error [DoHTTP] returns reports the one failure the callback
    received: its text is the prefix [request(method:M path:P cluster:C
    host:H)], then the clause of the category, then the text of the error the
    callback received. *)
Theorem DoHTTP_error_text (in_ : In E) (hp : HTTPParam) (w : World E) :
  let x := attempt E in_ hp w in
  match result x with
  | Next (Some e) =>
      exists et err clause,
        filter is_handler_call (events x) = [EvHandler et err]
        /\ Some e = DoHTTP_handler E hp et err None
        /\ Error E e = genErrorPrefix hp ++ clause ++ Error E err
        /\ clause = match et with
                    | NewHTTPRequestError => " new fail:"
                    | InParameterMarshalToJSONError =>
                        " in parameter marshal to json fail:"
                    | OutParameterRunMarshalFromJSONError =>
                        " out parameter unmarshal from json fail:"
                    | ResponseStatusCodeNotOK => " get code is not ok: "
                    | DoHTTPError => " do fail: "
                    | IOError => " read body fail: "
                    end
  | _ => filter is_handler_call (events x) = []
  end.
Proof.
  run; try congruence; try reflexivity.
  all: eexists; eexists; eexists; split; [reflexivity|];
    split; [reflexivity|]; split; [|reflexivity]; reflexivity.
Qed.

(** X12. For a response with a status other than 200 whose body was read,
    [DoHTTP] returns the error [<prefix> get code is not ok: code: <status>,
    message: <body>], the body cut to its first 200 bytes. *)
Theorem DoHTTP_status_error (in_ : In E) (hp : HTTPParam) (w : World E)
  (req : Request E) (resp : Response) (body : string) :
  let x := attempt E in_ hp w in
  List.In (EvDo req (DoOk resp)) (events x) ->
  Body resp = (body, None) ->
  StatusCode resp <> StatusOK ->
  result x
  = Next (Some (errorString
       (genErrorPrefix hp ++ " get code is not ok: "
        ++ "code: " ++ fmt_d (StatusCode resp) ++ ", message: "
        ++ truncate200 body)))
  /\ out (world x) = out w.
Proof.
  run; try congruence.
  all: intros Hin Hbody Hcode; pick_event; try congruence.
  all: try (match goal with
            | Hz : (StatusCode _ =? StatusOK) = true |- _ =>
                apply Z.eqb_eq in Hz; congruence
            end).
  all: cbn [Error]; split; [congruence|reflexivity].
Qed.

(** X13. When the decoder rejects the body of a response with status 200,
    [DoHTTP] returns the error [<prefix> out parameter unmarshal from json
    fail:<decoder error>, body:<body>], the body cut to its first 200 bytes;
    the output location is left as the decoder left it. *)
Theorem DoHTTP_decode_error (in_ : In E) (hp : HTTPParam) (w : World E)
  (body : string) (e : error) :
  let x := attempt E in_ hp w in
  List.In (EvUnmarshal body (Some e)) (events x) ->
  result x
  = Next (Some (errorString
       (genErrorPrefix hp ++ " out parameter unmarshal from json fail:"
        ++ Error E e ++ ", body:" ++ truncate200 body)))
  /\ (out (world x), Some e) = json_Unmarshal E body (out w).
Proof.
  run; try congruence.
  all: intros Hin; pick_event.
  all: cbn [Error]; split; [reflexivity|congruence].
Qed.

End ExecutorSteps.

Lemma DoHTTP_status_error_witness :
  let E := Stub.env (Some O) Stub.error_response in
  let x := attempt E (Some "x") Stub.post (Stub.world0 (Some O) Stub.error_response) in
  result x
  = Next (Some (errorString
       "request(method:POST path:/api/v1/register cluster:cluster host:bob) get code is not ok: code: 500, message: [7,8]"))
  /\ out (world x) = (0, 0).
Proof.
  refine (DoHTTP_status_error (Stub.env (Some O) Stub.error_response)
            (Some "x") Stub.post (Stub.world0 (Some O) Stub.error_response)
            _ Stub.error_response "[7,8]" _ _ _).
  - simpl. do 3 right. left. reflexivity.
  - reflexivity.
  - discriminate.
Defined.

Lemma DoHTTP_decode_error_witness :
  let E := Stub.env (Some O) Stub.mismatch_response in
  let x := attempt E (Some "x") Stub.post (Stub.world0 (Some O) Stub.mismatch_response) in
  result x
  = Next (Some (errorString
       "request(method:POST path:/api/v1/register cluster:cluster host:bob) out parameter unmarshal from json fail:json: cannot unmarshal bool into Go value of type int, body:[1,true]"))
  /\ out (world x) = (1, 0).
Proof.
  refine ((fun p => conj (proj1 p) _)
            (DoHTTP_decode_error (Stub.env (Some O) Stub.mismatch_response)
               (Some "x") Stub.post (Stub.world0 (Some O) Stub.mismatch_response)
               "[1,true]"
               (errorString "json: cannot unmarshal bool into Go value of type int")
               _)).
  - reflexivity.
  - simpl. do 5 right. left. reflexivity.
Defined.

Lemma last_header_write_wins_witness :
  let E := Stub.env (Some O) Stub.ok_response in
  let hp := {| Method := "POST"; Path := "/p"; ClusterName := "cluster";
               KusciaSource := "alice"; KusciaHost := "bob";
               Headers := [("kuscia-Host", "carol"); ("X-Trace", "1")] |} in
  let req := {| Stub.r_method := "POST"; Stub.r_url := "http://127.0.0.1:80/p";
                Stub.r_body := Some "x"; Stub.r_header := [] |} in
  stub_header_get (set_headers E hp req) "kuscia-Host" = Some "carol".
Proof.
  intros E hp req.
  apply (last_header_write_wins (Stub.env (Some O) Stub.ok_response)
           stub_header_get (fun k => k) hp req
           [("Content-Type", "application/json");
            ("Kuscia-Handshake-Cluster", "cluster");
            ("Kuscia-Source", "alice"); ("kuscia-Host", "bob")]
           [("X-Trace", "1")] "kuscia-Host" "carol" "kuscia-Host").
  - intros r k v k'. unfold stub_header_get. simpl.
    destruct (String.eqb k k'); reflexivity.
  - reflexivity.
  - intros kv [<- | []]. simpl. discriminate.
  - reflexivity.
Defined.

(** ** The retry wrapper on any input *)

Section RetryRuns.

Variable E : Env.
Variables (in_ : In E) (hp : HTTPParam) (waitTime : Z).

Lemma count_cons_sleep (evs evs' : list (event E)) :
  count is_attempt evs = 1%nat -> filter is_sleep evs = [] ->
  count is_attempt (evs ++ EvSleep waitTime :: evs') = S (count is_attempt evs')
  /\ filter is_sleep (evs ++ EvSleep waitTime :: evs')
     = EvSleep waitTime :: filter is_sleep evs'.
Proof.
  intros Ha Hs. unfold count in *. rewrite !filter_app, Hs, length_app, Ha.
  cbn. split; reflexivity.
Qed.

Lemma retry_loop_bounds (n : nat) (w : World E) (err0 : option error) :
  let y := retry_loop E n in_ hp waitTime err0 (w, tt) in
  let a := count is_attempt (events y) in
  let sl := count is_sleep (events y) in
  filter is_sleep (events y) = repeat (EvSleep waitTime) sl
  /\ match result y with
     | Return None => (1 <= a <= n)%nat /\ sl = (a - 1)%nat
     | Next e => a = n /\ sl = n /\ (n = O -> e = err0) /\ ((1 <= n)%nat -> e <> None)
     | _ => False
     end.
Proof.
  revert w err0. induction n as [|n IH]; intros w err0; cbv zeta.
  - cbn. repeat split; auto. lia.
  - rewrite retry_loop_succ.
    destruct (attempt_cases E in_ hp w) as (e' & w' & evs & Hatt & Ha & Hs).
    rewrite Hatt. destruct e' as [e|].
    + specialize (IH w' (Some e)). cbv zeta in IH.
      destruct (retry_loop E n in_ hp waitTime (Some e) (w', tt)) as [[o s''] evs'].
      unfold result, events, count in *. cbn [fst snd] in *.
      destruct (count_cons_sleep evs evs' Ha Hs) as [Hc Hf].
      unfold count in Hc. rewrite Hc, Hf. cbn [List.length].
      destruct IH as [IHf IHr]. split; [cbn; now rewrite <- IHf|].
      destruct o as [e2|[e2|]|]; try contradiction.
      * destruct IHr as (H1 & H2 & H3 & H4). repeat split; try lia.
        intros _. destruct n as [|n']; [rewrite H3 by reflexivity; discriminate|].
        apply H4. lia.
      * lia.
    + unfold result, events, count. cbn [fst snd]. rewrite Hs.
      unfold count in Ha. rewrite Ha. cbn. repeat split; lia.
Qed.

Lemma world_before_attempt_succ (i : nat) (w w' : World E)
  (e : option error) (evs : list (event E)) :
  attempt E in_ hp w = (Next e, (w', tt), evs) ->
  world_before_attempt E (S i) in_ hp w = world_before_attempt E i in_ hp w'.
Proof. intros Hatt. cbn [world_before_attempt]. now rewrite Hatt. Qed.

Lemma retry_loop_inv (n : nat) (w : World E) (err0 : option error) :
  let y := retry_loop E n in_ hp waitTime err0 (w, tt) in
  match result y with
  | Return None =>
      exists k, (k < n)%nat
                /\ (forall i, (i < k)%nat -> attempt_fails_at E i in_ hp w)
                /\ attempt_succeeds_at E k in_ hp w
  | Next _ => forall i, (i < n)%nat -> attempt_fails_at E i in_ hp w
  | _ => False
  end.
Proof.
  revert w err0. induction n as [|n IH]; intros w err0; cbv zeta.
  - cbn. intros i Hi. lia.
  - rewrite retry_loop_succ.
    destruct (attempt_cases E in_ hp w) as (e' & w' & evs & Hatt & _).
    rewrite Hatt. destruct e' as [e|].
    + specialize (IH w' (Some e)). cbv zeta in IH.
      destruct (retry_loop E n in_ hp waitTime (Some e) (w', tt)) as [[o s''] evs'].
      unfold result in *. cbn [fst] in *.
      assert (H0 : attempt_fails_at E 0 in_ hp w).
      { exists e. cbn [world_before_attempt]. now rewrite Hatt. }
      assert (Hshift : forall i, attempt_fails_at E i in_ hp w' ->
                                 attempt_fails_at E (S i) in_ hp w).
      { intros i [e1 He1]. exists e1.
        now rewrite (world_before_attempt_succ i w w' _ _ Hatt). }
      destruct o as [e2|[e2|]|]; try contradiction.
      * intros [|i] Hi; [exact H0|]. apply Hshift, IH. lia.
      * destruct IH as (k & Hk & Hfail & Hok). exists (S k).
        split; [lia|]. split.
        -- intros [|i] Hi; [exact H0|]. apply Hshift, Hfail. lia.
        -- unfold attempt_succeeds_at in *.
           now rewrite (world_before_attempt_succ k w w' _ _ Hatt).
    + unfold result. cbn [fst]. exists O. split; [lia|]. split.
      * intros i Hi. lia.
      * unfold attempt_succeeds_at. cbn [world_before_attempt]. now rewrite Hatt.
Qed.

Lemma retry_loop_budget (n : nat) :
  forall (n' : nat) (w : World E) (err0 err0' : option error) s evs,
    (n <= n')%nat ->
    retry_loop E n in_ hp waitTime err0 (w, tt) = (Return None, s, evs) ->
    retry_loop E n' in_ hp waitTime err0' (w, tt) = (Return None, s, evs).
Proof.
  induction n as [|n IH]; intros n' w err0 err0' s evs Hle Hrun.
  - discriminate Hrun.
  - destruct n' as [|n']; [lia|]. rewrite retry_loop_succ in Hrun |- *.
    destruct (attempt_cases E in_ hp w) as (e' & w' & evs0 & Hatt & _).
    rewrite Hatt in Hrun |- *. destruct e' as [e|]; [|exact Hrun].
    destruct (retry_loop E n in_ hp waitTime (Some e) (w', tt))
      as [[o s''] evs'] eqn:Hloop.
    injection Hrun as -> -> <-.
    now rewrite (IH n' w' (Some e) (Some e) s evs' ltac:(lia) Hloop).
Qed.

(** X14. Whatever the attempts do, [DoHTTPWithRetry] makes at most
    [maxRetryTimes] attempts, and every sleep lasts [waitTime].  When it
    returns [nil] it has made at least one attempt and slept once less than
    it attempted; when it returns an error it has made exactly
    [maxRetryTimes] attempts and slept as many times; it panics only for
    [maxRetryTimes <= 0], before any attempt. *)
Theorem retry_bounds (maxRetryTimes : Z) (w : World E) :
  let x := DoHTTPWithRetry E in_ hp waitTime maxRetryTimes (w, tt) in
  let a := count is_attempt (events x) in
  let sl := count is_sleep (events x) in
  (a <= Z.to_nat maxRetryTimes)%nat
  /\ filter is_sleep (events x) = repeat (EvSleep waitTime) sl
  /\ match result x with
     | Return None => (1 <= a)%nat /\ sl = (a - 1)%nat
     | Return (Some _) => (1 <= a)%nat /\ a = Z.to_nat maxRetryTimes /\ sl = a
     | Panic _ => maxRetryTimes <= 0 /\ a = O /\ sl = O
     | Next _ => False
     end.
Proof.
  cbv zeta. rewrite DoHTTPWithRetry_bind.
  pose proof (retry_loop_bounds (Z.to_nat maxRetryTimes) w None) as Hb.
  cbv zeta in Hb.
  destruct (retry_loop E (Z.to_nat maxRetryTimes) in_ hp waitTime None (w, tt))
    as [[o s'] evs].
  unfold result, events in *. cbn [fst snd] in *.
  destruct Hb as [Hf Hr]. destruct o as [[e|]|[e|]|]; try contradiction;
    cbn [fst snd].
  - destruct Hr as (H1 & H2 & H3 & H4).
    assert (1 <= Z.to_nat maxRetryTimes)%nat.
    { destruct (Nat.eq_dec (Z.to_nat maxRetryTimes) 0) as [Hz|]; [|lia].
      specialize (H3 Hz). discriminate. }
    repeat split; auto; lia.
  - destruct Hr as (H1 & H2 & H3 & H4).
    assert (Z.to_nat maxRetryTimes = O).
    { destruct (Nat.eq_dec (Z.to_nat maxRetryTimes) 0) as [Hz|]; [assumption|].
      exfalso. apply H4; [lia|reflexivity]. }
    repeat split; auto; lia.
  - repeat split; auto; lia.
Qed.

(** X15. For [maxRetryTimes >= 1], [DoHTTPWithRetry] returns [nil] exactly
    when one of the first [maxRetryTimes] attempts succeeds after failures
    only, and returns an error exactly when each of them fails. *)
Theorem retry_result_iff (maxRetryTimes : Z) (w : World E) :
  1 <= maxRetryTimes ->
  let x := DoHTTPWithRetry E in_ hp waitTime maxRetryTimes (w, tt) in
  (result x = Return None <->
   exists k, (k < Z.to_nat maxRetryTimes)%nat
             /\ (forall i, (i < k)%nat -> attempt_fails_at E i in_ hp w)
             /\ attempt_succeeds_at E k in_ hp w)
  /\ ((exists e, result x = Return (Some e)) <->
      forall i, (i < Z.to_nat maxRetryTimes)%nat -> attempt_fails_at E i in_ hp w).
Proof.
  intros Hmax. cbv zeta. rewrite DoHTTPWithRetry_bind.
  pose proof (retry_loop_inv (Z.to_nat maxRetryTimes) w None) as Hinv.
  pose proof (retry_loop_bounds (Z.to_nat maxRetryTimes) w None) as Hb.
  cbv zeta in Hinv, Hb.
  split; split.
  - intros Hres.
    destruct (retry_loop E (Z.to_nat maxRetryTimes) in_ hp waitTime None (w, tt))
      as [[o s'] evs].
    unfold result in *. cbn [fst] in *.
    destruct o as [[e|]|[e|]|]; try discriminate; try contradiction. exact Hinv.
  - intros (k & Hk & Hfail & Hok).
    destruct (retry_loop_success E in_ hp waitTime k (Z.to_nat maxRetryTimes)
                w None Hk Hfail Hok) as (Hr & _).
    destruct (retry_loop E (Z.to_nat maxRetryTimes) in_ hp waitTime None (w, tt))
      as [[o s'] evs].
    unfold result in *. cbn [fst] in *. now subst o.
  - intros [e Hres].
    destruct (retry_loop E (Z.to_nat maxRetryTimes) in_ hp waitTime None (w, tt))
      as [[o s'] evs].
    unfold result in *. cbn [fst] in *.
    destruct o as [[e'|]|[e'|]|]; try discriminate; try contradiction. exact Hinv.
  - intros Hfail.
    destruct (retry_loop_all_fail E in_ hp waitTime (Z.to_nat maxRetryTimes)
                w None Hfail) as (_ & Hres & _).
    destruct (Z.to_nat maxRetryTimes) as [|n] eqn:Hn; [lia|].
    specialize (Hres n eq_refl).
    destruct (Hfail n ltac:(lia)) as [e He]. unfold attempt_fails_at in He.
    rewrite He in Hres.
    destruct (retry_loop E (S n) in_ hp waitTime None (w, tt)) as [[o s'] evs].
    unfold result in *. cbn [fst] in *. subst o. eexists. reflexivity.
Qed.

(** X16. A larger attempt budget changes nothing in a run that succeeds:
    when [DoHTTPWithRetry] returns [nil] with [maxRetryTimes], it returns
    [nil] with every larger count, in the same world and after the same
    events. *)
Theorem retry_budget_monotone (maxRetryTimes maxRetryTimes' : Z) (w : World E) :
  maxRetryTimes <= maxRetryTimes' ->
  result (DoHTTPWithRetry E in_ hp waitTime maxRetryTimes (w, tt)) = Return None ->
  DoHTTPWithRetry E in_ hp waitTime maxRetryTimes' (w, tt)
  = DoHTTPWithRetry E in_ hp waitTime maxRetryTimes (w, tt).
Proof.
  intros Hle. rewrite !DoHTTPWithRetry_bind.
  destruct (retry_loop E (Z.to_nat maxRetryTimes) in_ hp waitTime None (w, tt))
    as [[o s'] evs] eqn:Hloop.
  unfold result. cbn [fst].
  destruct o as [[e|]|[e|]|]; try discriminate. intros _.
  assert (Hn : (Z.to_nat maxRetryTimes <= Z.to_nat maxRetryTimes')%nat) by lia.
  now rewrite (retry_loop_budget (Z.to_nat maxRetryTimes) (Z.to_nat maxRetryTimes')
                 w None None s' evs Hn Hloop).
Qed.

(** X17. For any [maxRetryTimes >= 1], when each of the first
    [maxRetryTimes] attempts fails, [DoHTTPWithRetry] makes [maxRetryTimes]
    attempts, sleeps [maxRetryTimes] times, and returns the error [request
    error, retry at maxtimes:<maxRetryTimes>, path: <Path>, err:<e>] where
    [e] is the error of the last attempt; the errors of the attempts before
    it are not in the result. *)
Theorem retry_exhaustion_any_count (maxRetryTimes : Z) (w : World E) :
  1 <= maxRetryTimes ->
  (forall i, (i < Z.to_nat maxRetryTimes)%nat -> attempt_fails_at E i in_ hp w) ->
  let x := DoHTTPWithRetry E in_ hp waitTime maxRetryTimes (w, tt) in
  count is_attempt (events x) = Z.to_nat maxRetryTimes
  /\ filter is_sleep (events x) = repeat (EvSleep waitTime) (Z.to_nat maxRetryTimes)
  /\ exists e,
       result (attempt E in_ hp
                 (world_before_attempt E (Z.to_nat maxRetryTimes - 1) in_ hp w))
       = Next (Some e)
       /\ result x = Return (Some (errorString (exhausted_message E maxRetryTimes hp e)))
       /\ contains (exhausted_message E maxRetryTimes hp e) (fmt_d maxRetryTimes)
       /\ contains (exhausted_message E maxRetryTimes hp e) (Path hp)
       /\ contains (exhausted_message E maxRetryTimes hp e) (Error E e).
Proof.
  intros Hmax Hfail.
  destruct (Z.to_nat maxRetryTimes) as [|n] eqn:Hn; [lia|].
  assert (Hz : maxRetryTimes = Z.of_nat (S n)) by lia.
  destruct (retry_exhausted E in_ hp waitTime n w Hfail) as (Ha & Hs & e & He & Hr).
  cbv zeta. rewrite Hz. split; [exact Ha|]. split; [exact Hs|].
  exists e. replace (S n - 1)%nat with n by lia.
  split; [exact He|]. split; [exact Hr|].
  apply exhausted_message_contains.
Qed.

End RetryRuns.

Lemma retry_result_iff_witness :
  let E := Stub.env (Some 2%nat) Stub.ok_response in
  let w0 := Stub.world0 (Some 2%nat) Stub.ok_response in
  result (DoHTTPWithRetry E (Some "x") Stub.post 1000 5 (w0, tt)) = Return None
  <-> exists k, (k < Z.to_nat 5)%nat
                /\ (forall i, (i < k)%nat -> attempt_fails_at E i (Some "x") Stub.post w0)
                /\ attempt_succeeds_at E k (Some "x") Stub.post w0.
Proof.
  refine (proj1 (retry_result_iff (Stub.env (Some 2%nat) Stub.ok_response)
                   (Some "x") Stub.post 1000 5
                   (Stub.world0 (Some 2%nat) Stub.ok_response) _)).
  lia.
Defined.

Lemma retry_budget_monotone_witness :
  let E := Stub.env (Some 2%nat) Stub.ok_response in
  let w0 := Stub.world0 (Some 2%nat) Stub.ok_response in
  DoHTTPWithRetry E (Some "x") Stub.post 1000 7 (w0, tt)
  = DoHTTPWithRetry E (Some "x") Stub.post 1000 3 (w0, tt).
Proof.
  apply (retry_budget_monotone (Stub.env (Some 2%nat) Stub.ok_response)
           (Some "x") Stub.post 1000 3 7
           (Stub.world0 (Some 2%nat) Stub.ok_response)).
  - lia.
  - reflexivity.
Defined.

Lemma retry_exhaustion_any_count_witness :
  let E := Stub.env None Stub.ok_response in
  let x := DoHTTPWithRetry E (Some "x") Stub.post 1000 5
             (Stub.world0 None Stub.ok_response, tt) in
  count is_attempt (events x) = 5%nat
  /\ filter is_sleep (events x) = repeat (EvSleep 1000) 5.
Proof.
  destruct (retry_exhaustion_any_count (Stub.env None Stub.ok_response)
              (Some "x") Stub.post 1000 5 (Stub.world0 None Stub.ok_response))
    as (Ha & Hs & _).
  - lia.
  - intros i Hi. eexists. reflexivity.
  - split; [exact Ha|exact Hs].
Defined.

(** ** The body kept in error texts *)

(** X18. The body quoted in an error text is a prefix of the response body
    of [min 200 (len body)] bytes: a body of at most 200 bytes is quoted
    whole, a longer one is cut to exactly its first 200 bytes. *)
Theorem truncate200_exact (body : string) :
  String.length (truncate200 body) = Nat.min 200 (String.length body)
  /\ (exists rest, body = truncate200 body ++ rest)
  /\ (if Nat.leb (String.length body) 200 then truncate200 body = body
      else String.length (truncate200 body) = 200%nat).
Proof.
  split; [|split].
  - unfold truncate200.
    destruct (Nat.ltb_spec 200 (String.length body)).
    + apply slice_to_length_min.
    + lia.
  - apply truncate200_prefix.
  - unfold truncate200.
    destruct (Nat.leb_spec (String.length body) 200);
      destruct (Nat.ltb_spec 200 (String.length body)); try lia.
    + reflexivity.
    + rewrite slice_to_length_min. lia.
Qed.
